(** * A shallow embedding of git-repo's command runner and [forall] fan-out

    The development follows two source files:
    - [git_command.py]: the control-socket cache [ssh_sock], the environment
      derivation done by [GitCommand.__init__] and the capture loop of
      [GitCommand.Wait];
    - [subcmds/forall.py]: [Forall.ProjectArgs], [DoWorkWrapper], [DoWork]
      and the result collection of [Forall.Execute].

    Python dictionaries are [gmap]s, lists are lists, module globals are
    fields of an explicit state record that every call threads through, and
    an exception is a constructor of a result type. *)

From Stdlib Require Import ZArith List Bool Lia Ascii String DecimalString.
From stdpp Require Import base option list strings gmap.

Local Open Scope string_scope.

(** ** Python values that the code moves around *)

Module Py.

(** A value that is [None] or an integer: what [DoWork] returns and what
    [rc] holds in [Forall.Execute]. *)
Inductive pyval : Type :=
| PNone
| PInt (z : Z).

(** Truth value in a boolean context ([if v], [v or w]). *)
Definition truthy (v : pyval) : bool :=
  match v with
  | PNone => false
  | PInt z => negb (z =? 0)%Z
  end.

(** [a or b]: the first operand when it is true, the second otherwise. *)
Definition py_or (a b : pyval) : pyval :=
  if truthy a then a else b.

(** [v != 0]. [None != 0] is true. *)
Definition ne0 (v : pyval) : bool :=
  match v with
  | PNone => true
  | PInt z => negb (z =? 0)%Z
  end.

(** Truth value of a string or [None] ([if cwd], [if gitdir]). *)
Definition str_truthy (o : option string) : bool :=
  match o with
  | None => false
  | Some s => negb (String.eqb s "")
  end.

(** ['%s' % v] for a string or [None]. *)
Definition fmt_s (o : option string) : string :=
  match o with
  | None => "None"
  | Some s => s
  end.

(** [str(n)] for a natural number: its decimal digits. *)
Definition str_nat (n : nat) : string :=
  NilEmpty.string_of_uint (Nat.to_uint n).

(** The exceptions the two files raise, catch or let through. An
    [Exception_] carries its type name, its message and its [errno]
    attribute when it has one. [WorkerKeyboardInterrupt] is the subclass of
    [Exception] that forall.py declares. *)
Inductive exc : Type :=
| KeyboardInterrupt
| WorkerKeyboardInterrupt
| Exception_ (tname msg : string) (errno : option pyval).


(** A call either returns or raises. *)
Inductive result (A : Type) : Type :=
| Ok (a : A)
| Raise (e : exc).
Arguments Ok {A} a.
Arguments Raise {A} e.

(** [errno.EINTR]: 4 on Linux, macOS, the BSDs and Windows. *)
Definition EINTR : Z := 4.

End Py.

(** ** What [portable] and [select] provide

    Both loops of the repository read a child's two pipes through
    [portable.input_reader] objects and [select.select]. *)

Module Portable.

(** The two pipes of a child, by the name given to [input_reader]. *)
Inductive std : Type := Stdout | Stderr.

#[global] Instance std_eq_dec : EqDecision std.
Proof. solve_decision. Defined.

(** What a spawned child does: the chunks that successive [read(4096)]
    calls return on each pipe before end-of-stream, and its exit status. *)
Record child : Type := {
  out_chunks : list string;
  err_chunks : list string;
  status : Z
}.

(** One call of [select.select(s_in, [], [])] without timeout: it returns a
    non-empty sub-list of [s_in] in the order of [s_in], or the signal
    handler raises [KeyboardInterrupt] while it blocks. [s_in] never holds
    more than two readers, so three picks cover every answer. *)
Inductive ready : Type :=
| PickFirst
| PickLast
| PickAll
| Sigint.

(** Modelled from the spec: [select.select] is not in the source files.
    "waits for readiness on whichever streams remain open ... reads from
    whichever stream(s) are ready". *)
Definition select (r : ready) (s_in : list std) : Py.result (list std) :=
  match r with
  | PickFirst => Py.Ok (take 1 s_in)
  | PickLast => Py.Ok (drop (length s_in - 1) s_in)
  | PickAll => Py.Ok s_in
  | Sigint => Py.Raise Py.KeyboardInterrupt
  end.

(** Modelled from the spec: [portable.input_reader.read] is not in the
    source files. It returns the next chunk of the pipe, and the empty
    string at end-of-stream. *)
Definition read (pending : list string) : string * list string :=
  match pending with
  | [] => ("", [])
  | c :: cs => (c, cs)
  end.

(** [s_in.remove(s)]: drops the first occurrence. *)
Fixpoint remove (s : std) (s_in : list std) : list std :=
  match s_in with
  | [] => []
  | x :: xs => if decide (x = s) then xs else x :: remove s xs
  end.

(** [not buf]. *)
Definition is_eof (buf : string) : bool := String.eqb buf "".

End Portable.

(** ** git_command.py *)

Module GitCommand.
Import Py.

Definition GIT : string := "git".
Definition GIT_DIR : string := "GIT_DIR".
Definition REPO_TRACE : string := "REPO_TRACE".

(** The list that [GitCommand.__init__] walks to clean the environment. *)
Definition deny_list : list string :=
  [REPO_TRACE;
   GIT_DIR;
   "GIT_ALTERNATE_OBJECT_DIRECTORIES";
   "GIT_OBJECT_DIRECTORY";
   "GIT_WORK_TREE";
   "GIT_GRAFT_FILE";
   "GIT_INDEX_FILE"].

(** *** The control socket *)

(** What [ssh_sock] asks of the file system: whether [/tmp] exists, what
    [tempfile.gettempdir()] answers, and the directory that the [n]-th call
    of [tempfile.mkdtemp('', 'ssh-', dir)] of this process creates. *)
Record fs : Type := {
  tmp_exists : bool;
  gettempdir : string;
  mkdtemp : nat -> string -> string
}.

(** The module globals, and the number of directories created so far. *)
Record globals : Type := {
  _ssh_sock_path : option string;
  _ssh_proxy_path : option string;
  LAST_GITDIR : option string;
  LAST_CWD : option string;
  mkdtemp_calls : nat
}.

(** The globals when the module has just been imported. *)
Definition fresh : globals :=
  {| _ssh_sock_path := None; _ssh_proxy_path := None;
     LAST_GITDIR := None; LAST_CWD := None; mkdtemp_calls := 0 |}.

(** Whether a string ends with a slash. *)
Fixpoint ends_with_slash (a : string) : bool :=
  match a with
  | EmptyString => false
  | String c EmptyString => Ascii.eqb c "/"
  | String _ rest => ends_with_slash rest
  end.

(** [os.path.join(a, b)] of posixpath, for two components. *)
Definition path_join (a b : string) : string :=
  match b with
  | String "/" _ => b
  | _ => if String.eqb a "" || ends_with_slash a then a ++ b
         else a ++ "/" ++ b
  end.

(** [ssh_sock(create)], lines 38 to 49. *)
Definition ssh_sock (w : fs) (create : bool) (g : globals)
  : option string * globals :=
  match _ssh_sock_path g with
  | None =>
      if negb create then (None, g)
      else
        let tmp_dir := if negb (tmp_exists w) then gettempdir w else "/tmp" in
        let p := path_join (mkdtemp w (mkdtemp_calls g) tmp_dir)
                           "master-%r@%h:%p" in
        (Some p,
         {| _ssh_sock_path := Some p;
            _ssh_proxy_path := _ssh_proxy_path g;
            LAST_GITDIR := LAST_GITDIR g;
            LAST_CWD := LAST_CWD g;
            mkdtemp_calls := S (mkdtemp_calls g) |})
  | Some p => (Some p, g)
  end.

(** A process lifetime as far as the socket is concerned: the [create]
    arguments of the successive calls, answered one after the other from
    the freshly imported module. *)
Fixpoint ssh_sock_calls (w : fs) (creates : list bool) (g : globals)
  : list (option string) * globals :=
  match creates with
  | [] => ([], g)
  | c :: cs =>
      let '(r, g1) := ssh_sock w c g in
      let '(rs, g2) := ssh_sock_calls w cs g1 in
      (r :: rs, g2)
  end.

(** [_ssh_proxy()], lines 51 to 57; [here] is [os.path.dirname(__file__)]. *)
Definition _ssh_proxy (here : string) (g : globals) : string * globals :=
  match _ssh_proxy_path g with
  | None =>
      let p := path_join here "git_ssh" in
      (p,
       {| _ssh_sock_path := _ssh_sock_path g;
          _ssh_proxy_path := Some p;
          LAST_GITDIR := LAST_GITDIR g;
          LAST_CWD := LAST_CWD g;
          mkdtemp_calls := mkdtemp_calls g |})
  | Some p => (p, g)
  end.

(** *** The child environment *)

(** Modelled from the spec: [_setenv] is called but not defined in the
    source files. "the interactive-editor variable is forced to a no-op
    value", "the control-socket path and the proxy-launcher path are
    injected": it binds the name to the value. *)
Definition _setenv (env : gmap string string) (name value : string)
  : gmap string string :=
  <[name := value]> env.

(** [for e in [...]: if e in env: del env[e]], lines 119 to 127. *)
Definition strip (denied : list string) (env : gmap string string)
  : gmap string string :=
  foldl (fun env e => if decide (is_Some (env !! e)) then delete e env else env)
        env denied.

(** The part of a live project that [__init__] reads. *)
Record project : Type := {
  worktree : string;
  gitdir : string
}.

(** [subprocess.PIPE] or [None]. *)
Inductive pipe : Type := PIPE | Inherit.

(** What the module reads from the process around it: [os.environ],
    [sys.platform], the directory of the module, and the two names that
    the file uses without defining them, [ssh_proxy] and [TRACE]. *)
Record ambient : Type := {
  environ : gmap string string;
  platform : string;
  module_dir : string;
  ssh_proxy : bool;
  TRACE : bool
}.

(** The arguments of [GitCommand(...)]. *)
Record args : Type := {
  a_project : option project;
  a_cmdv : list string;
  a_bare : bool;
  a_provide_stdin : bool;
  a_capture_stdout : bool;
  a_capture_stderr : bool;
  a_disable_editor : bool;
  a_cwd : option string;
  a_gitdir : option string
}.

(** What [__init__] hands to [subprocess.Popen]. *)
Record popen_args : Type := {
  command : list string;
  p_cwd : option string;
  p_env : gmap string string;
  p_stdin : pipe;
  p_stdout : pipe;
  p_stderr : pipe
}.

(** Lines 117 to 142: the environment before the project and [bare] are
    looked at. *)
Definition base_env (w : fs) (amb : ambient) (disable_editor : bool)
    (g : globals) : gmap string string * globals :=
  let env := strip deny_list (environ amb) in
  let env := if disable_editor then _setenv env "GIT_EDITOR" ":" else env in
  let '(env, g) :=
    if ssh_proxy amb then
      let '(sock, g) := ssh_sock w true g in
      let env := _setenv env "REPO_SSH_SOCK" (default "" sock) in
      let '(proxy, g) := _ssh_proxy (module_dir amb) g in
      (_setenv env "GIT_SSH" proxy, g)
    else (env, g) in
  let env :=
    match env !! "http_proxy" with
    | Some hp =>
        if String.eqb "darwin" (platform amb) then
          let s := "'http.proxy=" ++ hp ++ "'" in
          let s := match env !! "GIT_CONFIG_PARAMETERS" with
                   | Some p => p ++ " " ++ s
                   | None => s
                   end in
          _setenv env "GIT_CONFIG_PARAMETERS" s
        else env
    | None => env
    end in
  let env :=
    match env !! "GIT_ALLOW_PROTOCOL" with
    | None =>
        _setenv env "GIT_ALLOW_PROTOCOL"
          "file:git:http:https:ssh:persistent-http:persistent-https:sso:rpc"
    | Some _ => env
    end in
  (env, g).

(** Lines 117 to 170: everything [__init__] computes before the trace line
    and the spawn. *)
Definition init (w : fs) (amb : ambient) (a : args) (g : globals)
  : popen_args * globals :=
  let '(env, g) := base_env w amb (a_disable_editor a) g in
  let cwd := a_cwd a in
  let gitdir := a_gitdir a in
  let '(cwd, gitdir) :=
    match a_project a with
    | Some project =>
        (if negb (str_truthy cwd) then Some (worktree project) else cwd,
         if negb (str_truthy gitdir) then Some (GitCommand.gitdir project)
         else gitdir)
    | None => (cwd, gitdir)
    end in
  let '(env, cwd) :=
    if a_bare a then
      ((if str_truthy gitdir then <[GIT_DIR := default "" gitdir]> env
        else env),
       None)
    else (env, cwd) in
  ({| command := GIT :: a_cmdv a;
      p_cwd := cwd;
      p_env := env;
      p_stdin := if a_provide_stdin a then PIPE else Inherit;
      p_stdout := if a_capture_stdout a then PIPE else Inherit;
      p_stderr := if a_capture_stderr a then PIPE else Inherit |},
   g).

(** *** [GitCommand.Wait] *)

Import Portable.

(** What the terminal receives when a stream is echoed. *)
Inductive tty_event : Type :=
| Write (dest : std) (buf : string)
| Flush (dest : std).

(** The variables of [Wait]: the readers still in [s_in], what each pipe
    has yet to deliver, [self.stdout], [self.stderr], and the terminal. *)
Record wait_state : Type := {
  s_in : list std;
  pend_out : list string;
  pend_err : list string;
  stdout : string;
  stderr : string;
  tty : list tty_event
}.

(** Lines 214 to 220: both readers in the wait set, both captures empty. *)
Definition wait_start (c : child) : wait_state :=
  {| s_in := [Stdout; Stderr];
     pend_out := out_chunks c;
     pend_err := err_chunks c;
     stdout := "";
     stderr := "";
     tty := [] |}.

(** [s.read(4096)]: the next chunk of the pipe behind reader [s]. *)
Definition read_from (s : std) (st : wait_state) : string * wait_state :=
  match s with
  | Stdout =>
      let '(buf, rest) := read (pend_out st) in
      (buf, {| s_in := s_in st; pend_out := rest; pend_err := pend_err st;
               stdout := stdout st; stderr := stderr st; tty := tty st |})
  | Stderr =>
      let '(buf, rest) := read (pend_err st) in
      (buf, {| s_in := s_in st; pend_out := pend_out st; pend_err := rest;
               stdout := stdout st; stderr := stderr st; tty := tty st |})
  end.

(** The body of [for s in in_ready], lines 229 to 242. [tee] is
    [self.tee], which the file reads without setting it. *)
Definition wait_body (tee : std -> bool) (st : wait_state) (s : std)
  : wait_state :=
  let '(buf, st) := read_from s st in
  if is_eof buf then
    {| s_in := remove s (s_in st); pend_out := pend_out st;
       pend_err := pend_err st; stdout := stdout st; stderr := stderr st;
       tty := tty st |}
  else
    let out := match s with Stdout => stdout st ++ buf | Stderr => stdout st end in
    let err := match s with Stdout => stderr st | Stderr => stderr st ++ buf end in
    {| s_in := s_in st; pend_out := pend_out st; pend_err := pend_err st;
       stdout := out; stderr := err;
       tty := if tee s then tty st ++ [Write s buf; Flush s] else tty st |}.

(** [while s_in: ...], lines 226 to 242. [sel i] is the answer of the
    [i]-th call of [select.select]; [fuel] bounds the iterations, and
    [None] means that the bound was reached with readers still open. *)
Fixpoint wait_loop (tee : std -> bool) (sel : nat -> ready) (fuel i : nat)
    (st : wait_state) : option (result wait_state) :=
  match s_in st with
  | [] => Some (Ok st)
  | _ :: _ =>
      match fuel with
      | O => None
      | S fuel' =>
          match select (sel i) (s_in st) with
          | Raise e => Some (Raise e)
          | Ok in_ready =>
              wait_loop tee sel fuel' (S i) (foldl (wait_body tee) st in_ready)
          end
      end
  end.

(** What [Wait] leaves behind: its return value and the two captures. *)
Record wait_result : Type := {
  w_status : Z;
  w_stdout : string;
  w_stderr : string;
  w_tty : list tty_event
}.

(** Every iteration reads a chunk or closes a reader, so this many
    iterations always suffice. *)
Definition wait_bound (c : child) : nat :=
  length (out_chunks c) + length (err_chunks c) + 2.

(** [GitCommand.Wait], lines 213 to 243, on a child spawned with both
    pipes captured. *)
Definition Wait (tee : std -> bool) (sel : nat -> ready) (c : child)
  : option (result wait_result) :=
  match wait_loop tee sel (wait_bound c) 0 (wait_start c) with
  | None => None
  | Some (Raise e) => Some (Raise e)
  | Some (Ok st) =>
      Some (Ok {| w_status := status c; w_stdout := stdout st;
                  w_stderr := stderr st; w_tty := tty st |})
  end.

End GitCommand.

(** ** subcmds/forall.py *)

Module Forall.
Import Py Portable.

(** The options that [Execute] and [DoWork] read from [opt]. *)
Record opts : Type := {
  project_header : bool;
  verbose : bool;
  abort_on_errors : bool;
  jobs : nat
}.

(** The dictionary that [_SerializeProject] builds for one project and
    that crosses to the worker. A field that can be [None] is an option. *)
Record descriptor : Type := {
  name : option string;
  relpath : option string;
  remote_name : option string;
  lrev : option string;
  rrev : option string;
  annotations : gmap string (option string);
  gitdir : string;
  worktree : string
}.

(** One element that [ProjectArgs] yields:
    [[mirror, opt, cmd, shell, cnt, config, project]]. [config] is read
    for its color decision only. *)
Record work_item : Type := {
  wi_mirror : bool;
  wi_opt : opts;
  wi_cmd : list string;
  wi_shell : bool;
  wi_cnt : nat;
  wi_config : bool;
  wi_project : descriptor
}.

(** What a process writes besides the child's own inherited output. *)
Inductive event : Type :=
| PrintStdout (line : string)
| PrintStderr (line : string)
| Nl
| Banner (text : string)
| OutFlush
| StdinClose
| Close (s : std)
| WriteTo (dest : std) (buf : string)
| FlushTo (dest : std).

(** *** [Forall.ProjectArgs], lines 168 to 181 *)

Section ProjectArgs.
(** A live project of the manifest, its [name], and
    [self._SerializeProject], which the file calls but does not define:
    it returns the descriptor or raises. *)
Context {P : Type}.
Variable p_name : P -> string.
Variable _SerializeProject : P -> result descriptor.

Variables (mirror : bool) (opt : opts) (cmd : list string) (shell : bool)
          (config : bool).

(** The generator from position [cnt] on: the items it yields and the
    lines it prints on stderr. Both handlers [return], which ends the
    generator. *)
Fixpoint ProjectArgs_from (cnt : nat) (projects : list P)
  : list work_item * list event :=
  match projects with
  | [] => ([], [])
  | p :: rest =>
      match _SerializeProject p with
      | Raise KeyboardInterrupt =>
          ([], [PrintStderr "Project list interrupted"])
      | Raise (Exception_ tname msg _) =>
          ([], [PrintStderr ("Project list error on project " ++ p_name p
                             ++ ": " ++ tname ++ ": " ++ msg)])
      | Raise WorkerKeyboardInterrupt =>
          ([], [PrintStderr ("Project list error on project " ++ p_name p
                             ++ ": WorkerKeyboardInterrupt: ")])
      | Ok project =>
          let '(items, log) := ProjectArgs_from (S cnt) rest in
          ({| wi_mirror := mirror; wi_opt := opt; wi_cmd := cmd;
              wi_shell := shell; wi_cnt := cnt; wi_config := config;
              wi_project := project |} :: items, log)
      end
  end.

(** [for cnt, p in enumerate(projects)]. *)
Definition ProjectArgs (projects : list P) : list work_item * list event :=
  ProjectArgs_from 0 projects.
End ProjectArgs.

(** *** [DoWork], lines 207 to 315 *)

(** The nested [setenv]: [None] becomes the empty string, and the value is
    bound to the name. *)
Definition setenv (env : gmap string string) (name : string)
    (val : option string) : gmap string string :=
  let val := match val with None => "" | Some v => v end in
  <[name := val]> env.

(** Lines 208 to 229: the environment of the child and its directory. *)
Definition work_env (environ : gmap string string) (project : descriptor)
    (mirror : bool) (cnt : nat) : gmap string string :=
  let env := environ in
  let env := setenv env "REPO_PROJECT" (name project) in
  let env := setenv env "REPO_PATH" (relpath project) in
  let env := setenv env "REPO_REMOTE" (remote_name project) in
  let env := setenv env "REPO_LREV" (lrev project) in
  let env := setenv env "REPO_RREV" (rrev project) in
  let env := setenv env "REPO_I" (Some (str_nat (cnt + 1))) in
  let env := foldl (fun env '(name, val) => setenv env ("REPO__" ++ name) val)
                   env (map_to_list (annotations project)) in
  if mirror then setenv env "GIT_DIR" (Some (gitdir project)) else env.

Definition work_cwd (project : descriptor) (mirror : bool) : string :=
  if mirror then gitdir project else worktree project.

(** What a worker finds around it: [os.environ], [os.path.exists], what
    [subprocess.Popen] starts for a command line, directory, shell flag and
    environment (or the error it raises), and the answers of its blocking
    calls, in order. *)
Record world : Type := {
  os_environ : gmap string string;
  path_exists : string -> bool;
  popen : list string -> string -> bool -> gmap string string -> result child;
  sel : nat -> ready
}.

(** The variables of the header loop. *)
Record hstate : Type := {
  s_in : list std;
  pend_out : list string;
  pend_err : list string;
  empty : bool;
  errbuf : string;
  events : list event
}.

Definition header_start (c : child) : hstate :=
  {| s_in := [Stdout; Stderr];
     pend_out := out_chunks c;
     pend_err := err_chunks c;
     empty := true;
     errbuf := "";
     events := [StdinClose] |}.

Definition with_s_in (st : hstate) (l : list std) : hstate :=
  {| s_in := l; pend_out := pend_out st; pend_err := pend_err st;
     empty := empty st; errbuf := errbuf st; events := events st |}.

Definition with_errbuf (st : hstate) (b : string) : hstate :=
  {| s_in := s_in st; pend_out := pend_out st; pend_err := pend_err st;
     empty := empty st; errbuf := b; events := events st |}.

Definition with_empty (st : hstate) (b : bool) : hstate :=
  {| s_in := s_in st; pend_out := pend_out st; pend_err := pend_err st;
     empty := b; errbuf := errbuf st; events := events st |}.

Definition emit (st : hstate) (evs : list event) : hstate :=
  {| s_in := s_in st; pend_out := pend_out st; pend_err := pend_err st;
     empty := empty st; errbuf := errbuf st; events := events st ++ evs |}.

(** [s.read(4096)]. *)
Definition read_from (s : std) (st : hstate) : string * hstate :=
  match s with
  | Stdout =>
      let '(buf, rest) := read (pend_out st) in
      (buf, {| s_in := s_in st; pend_out := rest; pend_err := pend_err st;
               empty := empty st; errbuf := errbuf st; events := events st |})
  | Stderr =>
      let '(buf, rest) := read (pend_err st) in
      (buf, {| s_in := s_in st; pend_out := pend_out st; pend_err := rest;
               empty := empty st; errbuf := errbuf st; events := events st |})
  end.

(** Lines 295 to 303: the separator, the banner line and the flush. *)
Definition banner (project : descriptor) (mirror : bool) (cnt : nat)
  : list event :=
  let project_header_path := if mirror then name project else relpath project in
  (if negb (Nat.eqb cnt 0) then [Nl] else [])
  ++ [Banner ("project " ++ fmt_s project_header_path ++ "/"); Nl; OutFlush].

(** The body of [for s in in_ready], lines 280 to 312. The object [out] is
    a [ForallColoring], true in a boolean context. *)
Definition header_body (project : descriptor) (mirror verbose : bool)
    (cnt : nat) (st : hstate) (s : std) : hstate :=
  let '(buf, st) := read_from s st in
  if is_eof buf then
    with_s_in (emit st [Close s]) (remove s (s_in st))
  else if negb verbose && negb (bool_decide (s = Stdout)) then
    with_errbuf st (errbuf st ++ buf)
  else
    let st :=
      if empty st then
        let st := emit st (banner project mirror cnt) in
        let st :=
          if negb (String.eqb (errbuf st) "") then
            with_errbuf (emit st [WriteTo Stderr (errbuf st); FlushTo Stderr]) ""
          else st in
        with_empty st false
      else st in
    emit st [WriteTo s buf; FlushTo s].

(** [while s_in: ...], lines 277 to 312; the state it ends in and the
    number of the next blocking call, or the exception of [select] with the
    state reached. [None]: [fuel] iterations did not empty [s_in]. *)
Fixpoint header_loop (project : descriptor) (mirror verbose : bool)
    (cnt : nat) (sel : nat -> ready) (fuel i : nat) (st : hstate)
  : option (hstate * result nat) :=
  match s_in st with
  | [] => Some (st, Ok i)
  | _ :: _ =>
      match fuel with
      | O => None
      | S fuel' =>
          match select (sel i) (s_in st) with
          | Raise e => Some (st, Raise e)
          | Ok in_ready =>
              header_loop project mirror verbose cnt sel fuel' (S i)
                (foldl (header_body project mirror verbose cnt) st in_ready)
          end
      end
  end.

(** [p.wait()]: blocks until the child is gone, unless interrupted. The
    exit status is an integer. *)
Definition wait (r : ready) (c : child) : result pyval :=
  match r with
  | Sigint => Raise KeyboardInterrupt
  | _ => Ok (PInt (status c))
  end.

(** What a call leaves behind: what it wrote, and its return value or
    exception. *)
Record run : Type := {
  written : list event;
  ret : result pyval
}.

Definition header_bound (c : child) : nat :=
  length (out_chunks c) + length (err_chunks c) + 2.

(** [DoWork(project, mirror, opt, cmd, shell, cnt, config)]. The bare
    [return] of line 235 returns [None]. *)
Definition DoWork (w : world) (project : descriptor) (mirror : bool)
    (opt : opts) (cmd : list string) (shell : bool) (cnt : nat)
    (config : bool) : option run :=
  let env := work_env (os_environ w) project mirror cnt in
  let cwd := work_cwd project mirror in
  if negb (path_exists w cwd) then
    Some {| written :=
              if (project_header opt && verbose opt)
                 || negb (project_header opt)
              then [PrintStderr ("skipping " ++ fmt_s (relpath project) ++ "/")]
              else [];
            ret := Ok PNone |}
  else
    match popen w cmd cwd shell env with
    | Raise e => Some {| written := []; ret := Raise e |}
    | Ok p =>
        if project_header opt then
          match header_loop project mirror (verbose opt) cnt (sel w)
                  (header_bound p) 0 (header_start p) with
          | None => None
          | Some (st, Raise e) =>
              Some {| written := events st; ret := Raise e |}
          | Some (st, Ok i) =>
              Some {| written := events st; ret := wait (sel w i) p |}
          end
        else
          Some {| written := []; ret := wait (sel w 0) p |}
    end.

(** *** [DoWorkWrapper], lines 191 to 204 *)

Definition DoWorkWrapper (w : world) (args : work_item) : option run :=
  let project := wi_project args in
  match DoWork w project (wi_mirror args) (wi_opt args) (wi_cmd args)
          (wi_shell args) (wi_cnt args) (wi_config args) with
  | None => None
  | Some r =>
      match ret r with
      | Raise KeyboardInterrupt =>
          Some {| written :=
                    written r
                    ++ [PrintStdout (fmt_s (name project) ++ ": Worker interrupted")];
                  ret := Raise WorkerKeyboardInterrupt |}
      | _ => Some r
      end
  end.

(** *** [Forall.Execute], lines 140 to 166 *)

(** [for r in results_it], lines 147 to 150: what [rc] is when the loop
    ends, and the exception that ended it, if one did. An element of
    [results] is what the pool hands over for one item, in the order of
    delivery: the worker's return value, or the exception to raise in the
    orchestrator. *)
Fixpoint collect (abort_on_errors : bool) (rc : pyval)
    (results : list (result pyval)) : pyval * option exc :=
  match results with
  | [] => (rc, None)
  | Raise e :: _ => (rc, Some e)
  | Ok r :: rest =>
      let rc := py_or rc r in
      if ne0 r && abort_on_errors then
        (rc, Some (Exception_ "Exception" "Aborting due to previous error" None))
      else collect abort_on_errors rc rest
  end.

(** How [Execute] ends. [sys_exit] is the argument of [sys.exit] when it
    is called; [None] means that [Execute] returns. *)
Record outcome : Type := {
  rc : pyval;
  terminated : bool;
  joined : bool;
  sys_exit : option pyval;
  log : list event
}.

(** [getattr(e, 'errno', 1)]. *)
Definition errno_or_1 (errno : option pyval) : pyval :=
  match errno with
  | Some v => v
  | None => PInt 1
  end.

(** Lines 141 to 166, from the results on. *)
Definition Execute_results (abort_on_errors : bool)
    (results : list (result pyval)) : outcome :=
  let '(rc, raised) := collect abort_on_errors (PInt 0) results in
  let '(rc, terminated, log) :=
    match raised with
    | None => (rc, false, [])
    | Some KeyboardInterrupt | Some WorkerKeyboardInterrupt =>
        (py_or rc (PInt EINTR), true,
         [PrintStdout "Interrupted - terminating the pool"])
    | Some (Exception_ tname msg errno) =>
        (py_or rc (errno_or_1 errno), true,
         [PrintStderr ("Got an error, terminating the pool: "
                       ++ tname ++ ": " ++ msg)])
    end in
  {| rc := rc;
     terminated := terminated;
     joined := true;
     sys_exit := if ne0 rc then Some rc else None;
     log := log |}.

(** The exit status of the process: [sys.exit(None)] exits with 0. *)
Definition exit_status (o : outcome) : pyval :=
  match sys_exit o with
  | Some (PInt z) => PInt z
  | Some PNone | None => PInt 0
  end.

(** The results of a fan-out: every item goes through [DoWorkWrapper] in
    the world of the worker that takes it. *)
Fixpoint deliveries (worlds : nat -> world) (items : list work_item)
  : option (list (result pyval)) :=
  match items with
  | [] => Some []
  | it :: rest =>
      match DoWorkWrapper (worlds (wi_cnt it)) it, deliveries worlds rest with
      | Some r, Some rs => Some (ret r :: rs)
      | _, _ => None
      end
  end.

(** [Execute] from line 140 on. *)
Definition Execute {P : Type} (p_name : P -> string)
    (_SerializeProject : P -> result descriptor) (worlds : nat -> world)
    (mirror : bool) (opt : opts) (cmd : list string) (shell : bool)
    (config : bool) (projects : list P) : option outcome :=
  let '(items, _) :=
    ProjectArgs p_name _SerializeProject mirror opt cmd shell config projects in
  match deliveries worlds items with
  | None => None
  | Some results => Some (Execute_results (abort_on_errors opt) results)
  end.

End Forall.


(** * Properties *)

Local Open Scope list_scope.

(** ** The aggregate exit code of [Forall.Execute] *)

Module Spec.
Import Py.

(** The per-project exit codes as the pool delivers them when every worker
    returns an integer. *)
Definition returned (codes : list Z) : list (result pyval) :=
  map (fun z => Ok (PInt z)) codes.

(** The OR-reduction of the codes read bitwise. *)
Definition or_reduction_bitwise (codes : list Z) : Z :=
  foldr Z.lor 0%Z codes.

(** The OR-reduction of the codes read as booleans: 1 when some code is
    nonzero, 0 otherwise. *)
Definition or_reduction_boolean (codes : list Z) : Z :=
  if existsb (fun z => negb (z =? 0)%Z) codes then 1%Z else 0%Z.

(** The first true value of a list of results, if there is one. *)
Definition first_truthy (rs : list pyval) : option pyval :=
  List.find truthy rs.

End Spec.

Section Collect.
Import Py Forall Spec.

Lemma py_or_truthy (a b : pyval) : truthy a = true -> py_or a b = a.
Proof. unfold py_or. now intros ->. Qed.

Lemma py_or_falsy (a b : pyval) : truthy a = false -> py_or a b = b.
Proof. unfold py_or. now intros ->. Qed.

(** Without the abort policy the loop never raises by itself on returned
    values, and once [rc] is true it stays what it is. *)
Lemma collect_sticky (rs : list pyval) (a : pyval) :
  truthy a = true -> collect false a (map Ok rs) = (a, None).
Proof.
  intros Ha. induction rs as [|r rs IH]; simpl; [reflexivity|].
  rewrite andb_false_r, (py_or_truthy _ _ Ha). exact IH.
Qed.

(** Zeros leave a zero [rc] alone, under either policy. *)
Lemma collect_skip_zeros (abort : bool) (rs : list pyval)
    (rest : list (result pyval)) :
  Forall (fun r => ne0 r = false) rs ->
  collect abort (PInt 0) (map Ok rs ++ rest) = collect abort (PInt 0) rest.
Proof.
  intros Hrs. induction Hrs as [|r rs Hr _ IH]; simpl; [reflexivity|].
  rewrite Hr. simpl. destruct r as [|z]; [discriminate|]. simpl in Hr.
  apply negb_false_iff in Hr. apply Z.eqb_eq in Hr. subst z.
  exact IH.
Qed.

(** A value that is zero under [!=] is false under [or]. *)
Lemma ne0_false_falsy (r : pyval) : ne0 r = false -> truthy r = false.
Proof. destruct r; [discriminate | exact id]. Qed.

(** With the abort policy off, the loop computes the chained [or]. *)
Lemma collect_no_abort (rs : list pyval) (a : pyval)
    (rest : list (result pyval)) :
  collect false a (map Ok rs ++ rest)
  = collect false (foldl py_or a rs) rest.
Proof.
  revert a. induction rs as [|r rs IH]; intros a; simpl; [reflexivity|].
  rewrite andb_false_r. apply IH.
Qed.

(** The chained [or] is the first true value, or the last value seen. *)
Lemma foldl_py_or_falsy (rs : list pyval) (a : pyval) :
  truthy a = false ->
  truthy (foldl py_or a rs) = false ->
  first_truthy rs = None.
Proof.
  revert a. induction rs as [|r rs IH]; intros a Ha; simpl; [reflexivity|].
  rewrite (py_or_falsy _ _ Ha). unfold first_truthy. simpl.
  destruct (truthy r) eqn:Hr.
  - intros H. exfalso. revert H. clear IH.
    assert (E : foldl py_or r rs = r).
    { clear Ha. induction rs as [|r' rs IH']; simpl; [reflexivity|].
      rewrite (py_or_truthy _ _ Hr). exact IH'. }
    rewrite E, Hr. discriminate.
  - intros H. exact (IH r Hr H).
Qed.

Lemma foldl_py_or_sticky (rs : list pyval) (a : pyval) :
  truthy a = true -> foldl py_or a rs = a.
Proof.
  intros Ha. induction rs as [|r rs IH]; simpl; [reflexivity|].
  rewrite (py_or_truthy _ _ Ha). exact IH.
Qed.

Lemma foldl_py_or_none (rs : list pyval) (a : pyval) :
  first_truthy rs = None ->
  truthy a = false ->
  truthy (foldl py_or a rs) = false.
Proof.
  unfold first_truthy. revert a.
  induction rs as [|r rs IH]; intros a Hf Ha; simpl; [exact Ha|].
  simpl in Hf. destruct (truthy r) eqn:Hr; [discriminate|].
  rewrite (py_or_falsy _ _ Ha). apply IH; assumption.
Qed.

Lemma foldl_py_or_first (rs : list pyval) (a v : pyval) :
  truthy a = false ->
  first_truthy rs = Some v ->
  foldl py_or a rs = v.
Proof.
  revert a. induction rs as [|r rs IH]; intros a Ha; [discriminate|].
  unfold first_truthy. simpl. rewrite (py_or_falsy _ _ Ha).
  destruct (truthy r) eqn:Hr.
  - intros [= <-]. apply foldl_py_or_sticky. exact Hr.
  - intros H. apply IH; assumption.
Qed.

(** On integer codes: zeros are skipped, and the first nonzero code is
    kept to the end. *)
Lemma collect_first_nonzero (zeros : list Z) (c : Z) (rest : list Z) :
  Forall (fun z => z = 0%Z) zeros ->
  c <> 0%Z ->
  collect false (PInt 0) (returned (zeros ++ c :: rest)) = (PInt c, None).
Proof.
  intros Hz Hc. unfold returned. rewrite map_app.
  replace (map (fun z => Ok (PInt z)) zeros) with (map Ok (map PInt zeros))
    by (rewrite map_map; reflexivity).
  rewrite collect_skip_zeros.
  - simpl. rewrite andb_false_r.
    replace (map (fun z => Ok (PInt z)) rest) with (map Ok (map PInt rest))
      by (rewrite map_map; reflexivity).
    unfold py_or at 1. simpl. apply collect_sticky.
    simpl. apply negb_true_iff, Z.eqb_neq, Hc.
  - clear -Hz. induction Hz as [|z zs Hz _ IH]; constructor; [|exact IH].
    subst z. reflexivity.
Qed.

Lemma collect_all_zero (zeros : list Z) :
  Forall (fun z => z = 0%Z) zeros ->
  collect false (PInt 0) (returned zeros) = (PInt 0, None).
Proof.
  intros Hz. induction Hz as [|z zs Hz _ IH]; [reflexivity|].
  subst z. simpl. exact IH.
Qed.

(** A list of integers is all zeros, or zeros, a nonzero code and a rest. *)
Lemma split_first_nonzero (codes : list Z) :
  Forall (fun z => z = 0%Z) codes
  \/ exists zeros c rest,
       codes = (zeros ++ c :: rest)%list
       /\ Forall (fun z => z = 0%Z) zeros /\ c <> 0%Z.
Proof.
  induction codes as [|z codes IH]; [left; constructor|].
  destruct (Z.eq_dec z 0%Z) as [->|Hz].
  - destruct IH as [IH | (zeros & c & rest & -> & Hzs & Hc)].
    + left. constructor; [reflexivity | exact IH].
    + right. exists (0%Z :: zeros), c, rest.
      split; [reflexivity|]. split; [constructor; auto | exact Hc].
  - right. exists [], z, codes. split; [reflexivity|].
    split; [constructor | exact Hz].
Qed.

Lemma or_reduction_bitwise_zero (codes : list Z) :
  or_reduction_bitwise codes = 0%Z <-> Forall (fun z => z = 0%Z) codes.
Proof.
  induction codes as [|z codes IH]; simpl.
  - split; [constructor | reflexivity].
  - rewrite Z.lor_eq_0_iff, IH. split.
    + intros [-> H]. constructor; [reflexivity | exact H].
    + intros H. inversion H; subst. split; [reflexivity | assumption].
Qed.

End Collect.

Section Aggregate.
Import Py Portable Forall Spec.

(** C10. With the abort policy off and no interruption, the aggregate is
    exactly the first nonzero per-project exit code in the order of delivery:
    the zeros before it are skipped, and whatever codes follow it, nonzero or
    not, leave it unchanged. [Execute] then exits with that code. *)
Theorem C10_first_nonzero_code (zeros : list Z) (c : Z) (rest : list Z) :
  Forall (fun z => z = 0%Z) zeros ->
  c <> 0%Z ->
  let o := Execute_results false (returned (zeros ++ c :: rest)) in
  rc o = PInt c /\ sys_exit o = Some (PInt c) /\ terminated o = false.
Proof.
  intros Hz Hc. unfold Execute_results.
  rewrite (collect_first_nonzero _ _ _ Hz Hc). cbn.
  destruct (Z.eqb_spec c 0) as [E|_]; [contradiction|]. auto.
Qed.

(** Codes 0, 1, 2: the aggregate is 1, where a bitwise combination would
    be 3. *)
Lemma C10_first_nonzero_code_witness :
  (let o := Execute_results false (returned ([0] ++ 1 :: [2])%Z) in
   rc o = PInt 1 /\ sys_exit o = Some (PInt 1) /\ terminated o = false)
  /\ or_reduction_bitwise [0; 1; 2]%Z = 3%Z.
Proof.
  split; [|reflexivity].
  apply (C10_first_nonzero_code [0%Z] 1%Z [2%Z]).
  - repeat constructor.
  - discriminate.
Defined.

(** C5, as stated, fails under both readings of "OR": codes 1 and 2 give 1
    and not their bitwise OR 3, and the single code 2 gives 2 and not the
    boolean 1. *)
Lemma C5_or_reduction_counterexample :
  ~ (rc (Execute_results false (returned [1; 2]%Z))
     = PInt (or_reduction_bitwise [1; 2]%Z))
  /\ ~ (rc (Execute_results false (returned [2]%Z))
        = PInt (or_reduction_boolean [2]%Z)).
Proof. split; intros H; vm_compute in H; discriminate. Qed.

(** C5, amended. With the abort policy off and no interruption, the
    aggregate is zero exactly when the OR of all per-project codes is zero;
    when it is not zero it is the first nonzero code, and [Execute] exits the
    process with it; when it is zero [Execute] returns. The pool is joined
    and not terminated. Codes 0, 0, 1 give 1. *)
Theorem C5_aggregate_is_logical_or (codes : list Z) :
  let o := Execute_results false (returned codes) in
  exists a : Z,
    rc o = PInt a
    /\ (a = 0%Z <-> or_reduction_bitwise codes = 0%Z)
    /\ (a <> 0%Z ->
        exists zeros rest,
          codes = (zeros ++ a :: rest)%list
          /\ Forall (fun z => z = 0%Z) zeros)
    /\ sys_exit o = (if (a =? 0)%Z then None else Some (PInt a))
    /\ terminated o = false
    /\ joined o = true
    /\ rc (Execute_results false (returned [0; 0; 1]%Z)) = PInt 1.
Proof.
  cbv zeta. unfold Execute_results.
  destruct (split_first_nonzero codes)
    as [Hz | (zeros & c & rest & -> & Hz & Hc)].
  - exists 0%Z. rewrite (collect_all_zero _ Hz). cbn.
    rewrite or_reduction_bitwise_zero.
    repeat split; auto. intros H; contradiction.
  - exists c. rewrite (collect_first_nonzero _ _ _ Hz Hc). cbn.
    destruct (Z.eqb_spec c 0) as [E|_]; [contradiction|].
    repeat split; auto.
    + intros E. contradiction.
    + rewrite or_reduction_bitwise_zero. intros H.
      apply Forall_app in H as [_ H]. inversion H; subst. contradiction.
    + intros _. exists zeros, rest. split; [reflexivity | exact Hz].
Qed.

(** C4, as stated, fails: with the abort policy off, a project that
    returned 3 before the interruption leaves the aggregate at 3, which is
    not [EINTR]. *)
Lemma C4_interrupt_after_failure_counterexample :
  ~ (rc (Execute_results false [Ok (PInt 3); Raise WorkerKeyboardInterrupt])
     = PInt EINTR).
Proof. intros H. vm_compute in H. discriminate. Qed.

(** [DoWorkWrapper] never lets a [KeyboardInterrupt] through. *)
Lemma DoWorkWrapper_no_raw_interrupt (w : world) (args : work_item) (r : run) :
  DoWorkWrapper w args = Some r -> ret r <> Raise KeyboardInterrupt.
Proof.
  unfold DoWorkWrapper.
  destruct (DoWork _ _ _ _ _ _ _ _) as [r0|]; [|discriminate].
  destruct (ret r0) as [v|[| |tn msg en]] eqn:E; intros [= <-];
    simpl; rewrite ?E; discriminate.
Qed.

(** What the orchestrator does with a [WorkerKeyboardInterrupt]. *)
Lemma Execute_results_worker_interrupt (abort : bool) (pre : list pyval)
    (rest : list (result pyval)) :
  abort = false \/ Forall (fun v => ne0 v = false) pre ->
  let o := Execute_results abort
             (map Ok pre ++ Raise WorkerKeyboardInterrupt :: rest) in
  terminated o = true
  /\ joined o = true
  /\ rc o = default (PInt EINTR) (first_truthy pre)
  /\ sys_exit o = Some (rc o).
Proof.
  intros Hpre. cbv zeta. unfold Execute_results.
  assert (E : exists a,
             collect abort (PInt 0)
               (map Ok pre ++ Raise WorkerKeyboardInterrupt :: rest)
             = (a, Some WorkerKeyboardInterrupt)
             /\ py_or a (PInt EINTR) = default (PInt EINTR) (first_truthy pre)).
  { destruct Hpre as [-> | Hz].
    - rewrite collect_no_abort. simpl. eexists. split; [reflexivity|].
      destruct (first_truthy pre) as [v|] eqn:Hf.
      + rewrite (foldl_py_or_first pre (PInt 0) v eq_refl Hf). simpl.
        apply py_or_truthy. unfold first_truthy in Hf.
        apply find_some in Hf. tauto.
      + destruct (truthy (foldl py_or (PInt 0) pre)) eqn:Ht.
        * rewrite (foldl_py_or_none pre (PInt 0) Hf eq_refl) in Ht.
          discriminate.
        * simpl. apply py_or_falsy. exact Ht.
    - rewrite (collect_skip_zeros _ _ _ Hz). simpl. eexists.
      split; [reflexivity|].
      assert (Hn : first_truthy pre = None).
      { clear -Hz. unfold first_truthy.
        induction Hz as [|r pre Hr _ IH]; simpl; [reflexivity|].
        rewrite (ne0_false_falsy _ Hr). exact IH. }
      rewrite Hn. reflexivity. }
  destruct E as (a & -> & Ea). rewrite Ea. cbn.
  repeat split.
  assert (Hne : ne0 (default (PInt EINTR) (first_truthy pre)) = true).
  { destruct (first_truthy pre) as [v|] eqn:Hf; simpl; [|reflexivity].
    unfold first_truthy in Hf. apply find_some in Hf as [_ Hv].
    destruct v; [discriminate | exact Hv]. }
  rewrite Hne. reflexivity.
Qed.

(** C4, amended. An interruption that [DoWork] observes leaves
    [DoWorkWrapper] as a [WorkerKeyboardInterrupt], after the line naming
    the project, and the wrapper never raises a [KeyboardInterrupt]. When the
    orchestrator receives it after the results [pre], it terminates the pool,
    joins it and exits; the aggregate is [EINTR] when no result before was
    true, and otherwise stays the first such result. *)
Theorem C4_worker_interrupt (w : world) (args : work_item) (r0 : run)
    (abort : bool) (pre : list pyval) (rest : list (result pyval)) :
  DoWork w (wi_project args) (wi_mirror args) (wi_opt args) (wi_cmd args)
         (wi_shell args) (wi_cnt args) (wi_config args) = Some r0 ->
  ret r0 = Raise KeyboardInterrupt ->
  abort = false \/ Forall (fun v => ne0 v = false) pre ->
  exists r,
    DoWorkWrapper w args = Some r
    /\ ret r = Raise WorkerKeyboardInterrupt
    /\ written r
       = written r0
         ++ [PrintStdout (fmt_s (name (wi_project args))
                          ++ ": Worker interrupted")%string]
    /\ (forall w' args' r', DoWorkWrapper w' args' = Some r' ->
                            ret r' <> Raise KeyboardInterrupt)
    /\ let o := Execute_results abort (map Ok pre ++ ret r :: rest) in
       terminated o = true
       /\ joined o = true
       /\ rc o = default (PInt EINTR) (first_truthy pre)
       /\ sys_exit o = Some (rc o).
Proof.
  intros Hd Hr Hpre. unfold DoWorkWrapper. rewrite Hd, Hr.
  eexists. split; [reflexivity|]. split; [reflexivity|].
  split; [reflexivity|]. split; [apply DoWorkWrapper_no_raw_interrupt|].
  simpl ret. apply Execute_results_worker_interrupt. exact Hpre.
Qed.

End Aggregate.

(** ** Sample runs *)

Module Sample.
Import Py Portable Forall.

Definition build : descriptor :=
  {| name := Some "platform/build";
     relpath := Some "build";
     remote_name := None;
     lrev := None;
     rrev := Some "master";
     annotations := {[ "OWNER" := Some "infra" ]};
     gitdir := "/w/.repo/projects/build.git";
     worktree := "/w/build" |}.

(** A worker whose every path test answers [present], whose spawned child is
    [c], and whose blocking calls are answered by [answers]. *)
Definition worker (present : bool) (answers : nat -> ready) (c : child)
  : world :=
  {| os_environ := ∅;
     path_exists := fun _ => present;
     popen := fun _ _ _ _ => Ok c;
     sel := answers |}.

Definition silent : child :=
  {| out_chunks := []; err_chunks := []; status := 0 |}.

(** A child that warns twice on stderr and writes nothing on stdout. *)
Definition warns : child :=
  {| out_chunks := []; err_chunks := ["warning: a"; "warning: b"]; status := 0 |}.

Definition plain (abort : bool) : opts :=
  {| project_header := false; verbose := false; abort_on_errors := abort;
     jobs := 1 |}.

Definition headers (verbose : bool) : opts :=
  {| project_header := true; verbose := verbose; abort_on_errors := false;
     jobs := 1 |}.

Definition item (opt : opts) (cnt : nat) : work_item :=
  {| wi_mirror := false; wi_opt := opt; wi_cmd := ["ls-files"];
     wi_shell := false; wi_cnt := cnt; wi_config := false;
     wi_project := build |}.

End Sample.

Section AggregateSamples.
Import Py Portable Forall Spec Sample.

(** A worker interrupted while it waits for its child, after the results 0
    and 3: the orchestrator sees a [WorkerKeyboardInterrupt], terminates the
    pool, and the aggregate stays 3. *)
Lemma C4_worker_interrupt_witness :
  exists r,
    DoWorkWrapper (worker true (fun _ => Sigint) silent) (item (plain false) 2)
    = Some r
    /\ ret r = Raise WorkerKeyboardInterrupt
    /\ written r = [] ++ [PrintStdout "platform/build: Worker interrupted"]
    /\ (forall w' args' r', DoWorkWrapper w' args' = Some r' ->
                            ret r' <> Raise KeyboardInterrupt)
    /\ let o := Execute_results false (map Ok [PInt 0; PInt 3] ++ ret r :: []) in
       terminated o = true
       /\ joined o = true
       /\ rc o = PInt 3
       /\ sys_exit o = Some (rc o).
Proof.
  apply (C4_worker_interrupt (worker true (fun _ => Sigint) silent)
           (item (plain false) 2)
           {| written := []; ret := Raise KeyboardInterrupt |}
           false [PInt 0; PInt 3] []).
  - vm_compute. reflexivity.
  - reflexivity.
  - left. reflexivity.
Defined.

(** C3. One targeted project whose directory is missing, under the abort
    policy: [DoWork] prints the warning and returns [None]; [None != 0]
    holds, so [Execute] raises its abort exception, terminates the pool and
    exits with 1. With no project targeted it returns with 0. With the abort
    policy off the aggregate becomes [None] and [sys.exit(None)] is called.
    A missing directory next to a project that succeeds behaves the same. *)
Theorem C3_missing_directory_aborts :
  DoWork (worker false (fun _ => PickAll) silent) build false (plain true)
         ["ls-files"] false 0 false
  = Some {| written := [PrintStderr "skipping build/"]; ret := Ok PNone |}
  /\ Execute_results true [Ok PNone]
     = {| rc := PInt 1; terminated := true; joined := true;
          sys_exit := Some (PInt 1);
          log := [PrintStderr "Got an error, terminating the pool: Exception: Aborting due to previous error"] |}
  /\ Execute_results true []
     = {| rc := PInt 0; terminated := false; joined := true;
          sys_exit := None; log := [] |}
  /\ Execute_results false [Ok PNone]
     = {| rc := PNone; terminated := false; joined := true;
          sys_exit := Some PNone; log := [] |}
  /\ rc (Execute_results true [Ok (PInt 0); Ok PNone]) = PInt 1
  /\ rc (Execute_results true [Ok (PInt 0)]) = PInt 0.
Proof. vm_compute. repeat split; reflexivity. Qed.

(** The same through [Execute]: the only targeted project has no
    directory. *)
Lemma Execute_missing_directory_aborts :
  Execute (fun _ : descriptor => "build") Ok
          (fun _ => worker false (fun _ => PickAll) silent)
          false (plain true) ["ls-files"] false false [build]
  = Some {| rc := PInt 1; terminated := true; joined := true;
            sys_exit := Some (PInt 1);
            log := [PrintStderr "Got an error, terminating the pool: Exception: Aborting due to previous error"] |}.
Proof. vm_compute. reflexivity. Qed.

End AggregateSamples.

(** ** The fan-out of [Forall.ProjectArgs] *)

Section FanOut.
Import Py Portable Forall Spec Sample.
Context {P : Type}.
Variable p_name : P -> string.
Variable serialize : P -> result descriptor.
Variables (mirror : bool) (opt : opts) (cmd : list string) (shell : bool)
          (config : bool).

(** The item for the descriptor [d] at position [cnt]. *)
Definition item_at (cnt : nat) (d : descriptor) : work_item :=
  {| wi_mirror := mirror; wi_opt := opt; wi_cmd := cmd; wi_shell := shell;
     wi_cnt := cnt; wi_config := config; wi_project := d |}.

Lemma ProjectArgs_from_good (good : list P) (ds : list descriptor)
    (tail : list P) (cnt : nat) :
  Forall2 (fun p d => serialize p = Ok d) good ds ->
  ProjectArgs_from p_name serialize mirror opt cmd shell config cnt
    (good ++ tail)
  = (imap (fun i d => item_at (cnt + i) d) ds
     ++ fst (ProjectArgs_from p_name serialize mirror opt cmd shell config
               (cnt + length good) tail),
     snd (ProjectArgs_from p_name serialize mirror opt cmd shell config
            (cnt + length good) tail)).
Proof.
  intros H. revert cnt.
  induction H as [|p d good ds Hp _ IH]; intros cnt.
  - simpl. rewrite Nat.add_0_r. now destruct (ProjectArgs_from _ _ _ _ _ _ _ _ _).
  - simpl. rewrite Hp, IH. simpl.
    replace (cnt + S (length good)) with (S (cnt + length good)) by lia.
    rewrite Nat.add_0_r. unfold item_at at 2. f_equal. f_equal. f_equal.
    apply imap_ext. intros i x _. simpl. unfold item_at. f_equal. lia.
Qed.

Lemma ProjectArgs_from_bad (bad : P) (e : exc) (rest : list P) (cnt : nat) :
  serialize bad = Raise e ->
  exists line,
    ProjectArgs_from p_name serialize mirror opt cmd shell config cnt
      (bad :: rest)
    = ([], [PrintStderr line]).
Proof.
  intros H. simpl. rewrite H. destruct e; eexists; reflexivity.
Qed.

(** C2, amended. When the descriptor of one project cannot be built, the
    failure is reported and the generator ends there: items are produced for
    exactly the projects before the failing one, each with its position, and
    none for the failing project or for any project after it. *)
Theorem C2_fanout_stops_at_first_failure (good : list P)
    (ds : list descriptor) (bad : P) (e : exc) (rest : list P) :
  Forall2 (fun p d => serialize p = Ok d) good ds ->
  serialize bad = Raise e ->
  exists line,
    ProjectArgs p_name serialize mirror opt cmd shell config
      (good ++ bad :: rest)
    = (imap item_at ds, [PrintStderr line]).
Proof.
  intros Hgood Hbad. unfold ProjectArgs.
  rewrite (ProjectArgs_from_good good ds (bad :: rest) 0 Hgood).
  destruct (ProjectArgs_from_bad bad e rest (0 + length good) Hbad)
    as [line ->].
  exists line. simpl. rewrite app_nil_r. reflexivity.
Qed.

(** When every descriptor can be built, every project gets its item. *)
Lemma ProjectArgs_all_good (good : list P) (ds : list descriptor) :
  Forall2 (fun p d => serialize p = Ok d) good ds ->
  ProjectArgs p_name serialize mirror opt cmd shell config good
  = (imap item_at ds, []).
Proof.
  intros Hgood. unfold ProjectArgs.
  rewrite <- (app_nil_r good) at 1.
  rewrite (ProjectArgs_from_good good ds [] 0 Hgood). simpl.
  rewrite app_nil_r. reflexivity.
Qed.

(** The [cnt] of an item is its position in the run, counted from 0. *)
Lemma ProjectArgs_from_cnt (projects : list P) (cnt i : nat) (it : work_item) :
  fst (ProjectArgs_from p_name serialize mirror opt cmd shell config cnt
         projects) !! i = Some it ->
  wi_cnt it = cnt + i.
Proof.
  revert cnt i. induction projects as [|p projects IH]; intros cnt i; simpl.
  - rewrite lookup_nil. discriminate.
  - destruct (serialize p) as [d|[| |tn msg en]]; simpl;
      try (rewrite lookup_nil; discriminate).
    destruct (ProjectArgs_from _ _ _ _ _ _ _ (S cnt) projects)
      as [items log] eqn:E.
    destruct i as [|i]; simpl.
    + intros [= <-]. simpl. lia.
    + intros H. specialize (IH (S cnt) i). rewrite E in IH.
      rewrite (IH H). lia.
Qed.

End FanOut.

Section FanOutSamples.
Import Py Portable Forall Spec Sample.

(** Three projects, numbered; the second cannot be serialized. *)
Definition second_fails (p : nat) : result descriptor :=
  if Nat.eqb p 1 then Raise (Exception_ "GitError" "no revision" None)
  else Ok build.

(** C2, as stated, fails: of three projects whose second cannot be
    serialized, the third gets no work item. *)
Lemma C2_later_projects_dropped_counterexample :
  ~ (exists it,
        In it (fst (ProjectArgs str_nat second_fails false (plain false)
                      ["ls-files"] false false [0; 1; 2]))
        /\ wi_cnt it = 2).
Proof.
  intros (it & Hin & Hcnt). vm_compute in Hin.
  destruct Hin as [<- | []]. discriminate.
Qed.

Lemma C2_fanout_stops_at_first_failure_witness :
  exists line,
    ProjectArgs str_nat second_fails false (plain false) ["ls-files"] false
      false ([0] ++ 1 :: [2])
    = (imap (item_at false (plain false) ["ls-files"] false false) [build],
       [PrintStderr line]).
Proof.
  apply (C2_fanout_stops_at_first_failure str_nat second_fails false
           (plain false) ["ls-files"] false false [0] [build] 1
           (Exception_ "GitError" "no revision" None) [2]).
  - repeat constructor.
  - reflexivity.
Defined.

End FanOutSamples.

(** ** The environment that [DoWork] gives a child *)

Section WorkerEnvironment.
Import Py Portable Forall Spec Sample.

(** The loop over the annotations, on the list of their bindings. *)
Definition set_annotations (env : gmap string string)
    (l : list (string * option string)) : gmap string string :=
  foldl (fun env '(name, val) => setenv env ("REPO__" ++ name)%string val)
        env l.

Lemma setenv_lookup (env : gmap string string) (k : string)
    (v : option string) :
  setenv env k v !! k = Some (default "" v).
Proof. unfold setenv. rewrite lookup_insert_eq. now destruct v. Qed.

Lemma setenv_lookup_ne (env : gmap string string) (k x : string)
    (v : option string) :
  k <> x -> setenv env k v !! x = env !! x.
Proof. intros H. unfold setenv. now rewrite lookup_insert_ne. Qed.

(** A name that no annotation produces is left as it was. *)
Lemma set_annotations_other (l : list (string * option string))
    (env : gmap string string) (x : string) :
  (forall k, In k (map fst l) -> x <> ("REPO__" ++ k)%string) ->
  set_annotations env l !! x = env !! x.
Proof.
  revert env. induction l as [|[k v] l IH]; intros env H; [reflexivity|].
  simpl. unfold set_annotations in IH. rewrite IH.
  - apply setenv_lookup_ne. intros E. apply (H k); [now left | now symmetry].
  - intros k' Hk'. apply H. now right.
Qed.

(** Each annotation gets its variable. *)
Lemma set_annotations_lookup (l : list (string * option string))
    (env : gmap string string) (k : string) (v : option string) :
  List.NoDup (map fst l) ->
  In (k, v) l ->
  set_annotations env l !! ("REPO__" ++ k)%string = Some (default "" v).
Proof.
  revert env. induction l as [|[k' v'] l IH]; intros env Hnd Hin; [easy|].
  inversion Hnd as [|? ? Hnotin Hnd']; subst. simpl.
  destruct Hin as [[= -> ->] | Hin].
  - fold (set_annotations (setenv env ("REPO__" ++ k)%string v) l).
    rewrite set_annotations_other; [apply setenv_lookup|].
    intros k2 Hk2 E. cbv [String.append] in E. injection E as E. now subst k2.
  - apply IH; assumption.
Qed.

(** A name that is neither [GIT_DIR] nor an annotation variable is bound
    by the six fixed assignments. *)
Lemma work_env_fixed (environ : gmap string string) (d : descriptor)
    (m : bool) (n : nat) (x : string) :
  x <> "GIT_DIR" ->
  (forall k, x <> ("REPO__" ++ k)%string) ->
  work_env environ d m n !! x
  = (setenv (setenv (setenv (setenv (setenv (setenv environ
       "REPO_PROJECT" (name d))
       "REPO_PATH" (relpath d))
       "REPO_REMOTE" (remote_name d))
       "REPO_LREV" (lrev d))
       "REPO_RREV" (rrev d))
       "REPO_I" (Some (str_nat (n + 1)))) !! x.
Proof.
  intros Hg Ha. unfold work_env.
  match goal with
  | |- context [foldl _ ?e (map_to_list _)] =>
      fold (set_annotations e (map_to_list (annotations d)))
  end.
  destruct m.
  - rewrite setenv_lookup_ne by (intros E; now apply Hg).
    apply set_annotations_other. intros k _. apply Ha.
  - apply set_annotations_other. intros k _. apply Ha.
Qed.

Ltac fixed_name :=
  rewrite work_env_fixed
    by (try discriminate; intros ?; cbv [String.append]; discriminate);
  repeat first [ apply setenv_lookup
               | rewrite setenv_lookup_ne by discriminate ].

(** C7, amended. For every worker invocation the child environment binds
    [REPO_PROJECT], [REPO_PATH], [REPO_REMOTE], [REPO_LREV] and [REPO_RREV]
    to the project's fields, [REPO_I] to the decimal string of [cnt + 1],
    and one [REPO__<name>] per annotation to its value, all as strings; a
    field that is [None] binds its variable to the empty string, it is not
    left unset. [cnt] is the position of the project in the run. *)
Theorem C7_worker_environment (environ : gmap string string)
    (project : descriptor) (mirror : bool) (cnt : nat) :
  let env := work_env environ project mirror cnt in
  env !! "REPO_PROJECT" = Some (default "" (name project))
  /\ env !! "REPO_PATH" = Some (default "" (relpath project))
  /\ env !! "REPO_REMOTE" = Some (default "" (remote_name project))
  /\ env !! "REPO_LREV" = Some (default "" (lrev project))
  /\ env !! "REPO_RREV" = Some (default "" (rrev project))
  /\ env !! "REPO_I" = Some (str_nat (cnt + 1))
  /\ (forall k v, annotations project !! k = Some v ->
                  env !! ("REPO__" ++ k)%string = Some (default "" v))
  /\ (forall (P : Type) (p_name : P -> string) ser opt cmd shell config
             (projects : list P) (i : nat) (it : work_item),
         fst (ProjectArgs p_name ser mirror opt cmd shell config projects)
           !! i = Some it ->
         work_env environ (wi_project it) (wi_mirror it) (wi_cnt it)
           !! "REPO_I" = Some (str_nat (i + 1))).
Proof.
  cbv zeta.
  repeat match goal with
         | |- _ !! _ = _ /\ _ => split; [ fixed_name | ]
         end.
  split.
  - intros k v Hk. unfold work_env.
    match goal with
    | |- context [foldl _ ?e (map_to_list _)] =>
        fold (set_annotations e (map_to_list (annotations project)))
    end.
    assert (Hin : In (k, v) (map_to_list (annotations project))).
    { apply list_elem_of_In, elem_of_map_to_list, Hk. }
    assert (Hnd : List.NoDup (map fst (map_to_list (annotations project)))).
    { apply NoDup_ListNoDup, (NoDup_fst_map_to_list (annotations project)). }
    destruct mirror.
    + rewrite setenv_lookup_ne by (cbv [String.append]; discriminate).
      apply set_annotations_lookup; assumption.
    + apply set_annotations_lookup; assumption.
  - intros P p_name ser opt cmd shell config projects i it Hit.
    apply ProjectArgs_from_cnt in Hit. rewrite Hit. simpl.
    fixed_name.
Qed.

(** C7, as stated, fails: the sample project has no remote name, and its
    child still gets [REPO_REMOTE], bound to the empty string. *)
Lemma C7_empty_field_is_set_counterexample :
  ~ (work_env ∅ build false 0 !! "REPO_REMOTE" = None).
Proof. assert (E : work_env ∅ build false 0 !! "REPO_REMOTE" = Some "")
  by fixed_name. rewrite E. discriminate. Qed.

(** The first project of a run gets [REPO_I=1], the tenth [REPO_I=10]. *)
Example REPO_I_is_one_based :
  work_env ∅ build false 0 !! "REPO_I" = Some "1"
  /\ work_env ∅ build false 9 !! "REPO_I" = Some "10".
Proof. split; fixed_name. Qed.

End WorkerEnvironment.

(** ** The control socket of git_command.py *)

Section ControlSocket.
Import Py GitCommand.
Variable w : fs.

(** The path that the first [ssh_sock(create=True)] of a process
    generates. *)
Definition generated : string :=
  path_join (mkdtemp w 0 (if negb (tmp_exists w) then gettempdir w else "/tmp"))
            "master-%r@%h:%p".

(** The globals are either as imported, or hold the generated path after
    exactly one directory creation. *)
Definition socket_inv (g : globals) : Prop :=
  (_ssh_sock_path g = None /\ mkdtemp_calls g = 0)
  \/ (_ssh_sock_path g = Some generated /\ mkdtemp_calls g = 1).

Lemma ssh_sock_step (create : bool) (g : globals) :
  socket_inv g ->
  socket_inv (snd (ssh_sock w create g))
  /\ fst (ssh_sock w create g)
     = (if create || bool_decide (is_Some (_ssh_sock_path g))
        then Some generated else None)
  /\ (_ssh_sock_path (snd (ssh_sock w create g)) = None
      <-> _ssh_sock_path g = None /\ create = false).
Proof.
  unfold socket_inv, ssh_sock.
  intros [[Hp Hc] | [Hp Hc]]; rewrite Hp.
  - destruct create; simpl.
    + rewrite Hc. split; [right; split; reflexivity|].
      split; [reflexivity|]. split; [discriminate | intros [_ [=]]].
    + split; [left; split; assumption|]. split; [reflexivity|]. tauto.
  - simpl. split; [right; rewrite Hp; split; [reflexivity | assumption]|].
    rewrite Hp, orb_true_r. split; [reflexivity|].
    split; [discriminate | intros [[=] _]].
Qed.

(** A run of calls from globals that satisfy the invariant. *)
Lemma ssh_sock_calls_from (creates : list bool) (g : globals) :
  socket_inv g ->
  let '(rets, g') := ssh_sock_calls w creates g in
  socket_inv g'
  /\ (_ssh_sock_path g' = None
      <-> _ssh_sock_path g = None /\ existsb id creates = false)
  /\ forall i c,
       creates !! i = Some c ->
       rets !! i
       = Some (if c || existsb id (take i creates)
                    || bool_decide (is_Some (_ssh_sock_path g))
               then Some generated else None).
Proof.
  revert g. induction creates as [|c cs IH]; intros g Hg; simpl.
  - split; [exact Hg|]. split; [tauto|]. intros i c. rewrite lookup_nil.
    discriminate.
  - destruct (ssh_sock_step c g Hg) as (Hinv & Hret & Hnone).
    destruct (ssh_sock w c g) as [r g1]. simpl in *.
    specialize (IH g1 Hinv).
    destruct (ssh_sock_calls w cs g1) as [rs g2].
    destruct IH as (Hinv2 & Hnone2 & Hrets).
    split; [exact Hinv2|]. split.
    + rewrite Hnone2, Hnone. change (id c) with c.
      destruct c; simpl; intuition congruence.
    + intros [|i] c'; simpl.
      * intros [= <-]. rewrite Hret, orb_false_r. reflexivity.
      * intros Hc'. rewrite (Hrets i c' Hc'). f_equal.
        assert (E : bool_decide (is_Some (_ssh_sock_path g1))
                    = c || bool_decide (is_Some (_ssh_sock_path g))).
        { destruct (_ssh_sock_path g1) as [p1|] eqn:E1.
          - destruct c; [reflexivity|]. simpl.
            destruct (_ssh_sock_path g) as [p0|] eqn:E0; [reflexivity|].
            exfalso. destruct Hnone as [_ Hn]. discriminate Hn. tauto.
          - destruct Hnone as [Hn _]. destruct (Hn eq_refl) as [-> ->].
            reflexivity. }
        rewrite E. change (id c) with c.
        generalize (existsb id (take i cs))
                   (bool_decide (is_Some (_ssh_sock_path g))).
        intros b1 b2. destruct c', c, b1, b2; reflexivity.
Qed.

(** C9. In one process lifetime, whatever the sequence of calls:
    [ssh_sock] creates a directory, and so generates a path, once when some
    call asks with [create=True] and never otherwise; every call with
    [create=True] returns that one path; a call with [create=False] returns
    [None] when no call with [create=True] came before it, and the same
    cached path when one did. *)
Theorem C9_socket_path_cached (creates : list bool) :
  let '(rets, g) := ssh_sock_calls w creates fresh in
  mkdtemp_calls g <= 1
  /\ mkdtemp_calls g = (if existsb id creates then 1 else 0)
  /\ (forall i, creates !! i = Some true -> rets !! i = Some (Some generated))
  /\ (forall i, creates !! i = Some false ->
                existsb id (take i creates) = false ->
                rets !! i = Some None)
  /\ (forall i, creates !! i = Some false ->
                existsb id (take i creates) = true ->
                rets !! i = Some (Some generated)).
Proof.
  assert (H0 : socket_inv fresh) by (left; split; reflexivity).
  pose proof (ssh_sock_calls_from creates fresh H0) as H.
  destruct (ssh_sock_calls w creates fresh) as [rets g].
  destruct H as (Hinv & Hnone & Hrets).
  assert (Hcalls : mkdtemp_calls g = (if existsb id creates then 1 else 0)).
  { destruct Hinv as [[Hp Hc] | [Hp Hc]].
    - destruct Hnone as [Hn _]. destruct (Hn Hp) as [_ ->]. exact Hc.
    - destruct (existsb id creates) eqn:E; [exact Hc|].
      destruct Hnone as [_ Hn]. rewrite Hn in Hp; [discriminate|].
      split; reflexivity. }
  split; [rewrite Hcalls; destruct (existsb id creates); lia|].
  split; [exact Hcalls|].
  split; [|split]; intros i Hi; [|intros Hb|intros Hb];
    rewrite (Hrets i _ Hi); simpl; rewrite ?Hb; reflexivity.
Qed.

End ControlSocket.

(** ** The environment that [GitCommand.__init__] derives *)

Section ChildEnvironment.
Import Py GitCommand.

(** [strip] removes the listed names and touches no other. *)
Lemma strip_denied (denied : list string) (env : gmap string string)
    (x : string) :
  In x denied \/ env !! x = None -> strip denied env !! x = None.
Proof.
  unfold strip. revert env.
  induction denied as [|e denied IH]; intros env H; simpl.
  - destruct H as [[]|H]. exact H.
  - apply IH. destruct (decide (e = x)) as [->|Hne].
    + right. case_decide as Hs; [apply lookup_delete_eq|].
      destruct (env !! x) eqn:E; [|reflexivity]. exfalso. apply Hs. eauto.
    + destruct H as [[H|H]|H]; [contradiction | now left | right].
      case_decide; [|exact H]. rewrite lookup_delete_ne; auto.
Qed.

Lemma strip_other (denied : list string) (env : gmap string string)
    (x : string) :
  ~ In x denied -> strip denied env !! x = env !! x.
Proof.
  unfold strip. revert env.
  induction denied as [|e denied IH]; intros env H; simpl; [reflexivity|].
  rewrite IH by (intros Hin; apply H; now right).
  case_decide; [|reflexivity].
  apply lookup_delete_ne. intros ->. apply H. now left.
Qed.

(** The names that [base_env] binds after the cleaning. *)
Definition injected : list string :=
  ["GIT_EDITOR"; "REPO_SSH_SOCK"; "GIT_SSH"; "GIT_CONFIG_PARAMETERS";
   "GIT_ALLOW_PROTOCOL"].

(** [base_env] leaves no listed name in the environment. *)
Lemma base_env_denied (w : fs) (amb : ambient) (disable_editor : bool)
    (g : globals) (x : string) :
  In x deny_list ->
  fst (base_env w amb disable_editor g) !! x = None.
Proof.
  intros Hx.
  assert (Hne : forall n, In n injected -> n <> x).
  { intros n Hn ->. unfold deny_list, injected, REPO_TRACE, GIT_DIR in *.
    simpl in Hx, Hn.
    repeat (destruct Hx as [Hx | Hx]; [subst; intuition discriminate|]).
    exact Hx. }
  assert (Hset : forall env n v, In n injected -> env !! x = None ->
                   _setenv env n v !! x = None).
  { intros env n v Hn He. unfold _setenv. rewrite lookup_insert_ne; auto. }
  unfold base_env.
  assert (H0 : strip deny_list (environ amb) !! x = None).
  { apply strip_denied. now left. }
  set (env0 := strip deny_list (environ amb)) in *. clearbody env0.
  assert (H1 : (if disable_editor then _setenv env0 "GIT_EDITOR" ":" else env0)
               !! x = None).
  { destruct disable_editor; [apply Hset; simpl; auto | exact H0]. }
  set (env1 := if disable_editor then _ else _) in *. clearbody env1.
  destruct (ssh_proxy amb).
  - destruct (ssh_sock w true g) as [sock g1].
    destruct (_ssh_proxy (module_dir amb) g1) as [proxy g2]. simpl.
    set (env2 := _setenv (_setenv env1 _ _) _ _).
    assert (H2 : env2 !! x = None).
    { subst env2. repeat (apply Hset; [simpl; auto|]). exact H1. }
    clearbody env2.
    repeat match goal with
           | |- context [match ?e !! ?k with _ => _ end] =>
               destruct (e !! k)
           | |- context [if ?b then _ else _] => destruct b
           end;
      repeat (apply Hset; [simpl; tauto|]); exact H2.
  - simpl.
    repeat match goal with
           | |- context [match ?e !! ?k with _ => _ end] =>
               destruct (e !! k)
           | |- context [if ?b then _ else _] => destruct b
           end;
      repeat (apply Hset; [simpl; tauto|]); exact H1.
Qed.

(** The directory that [bare] pins: the [gitdir] argument when it is true,
    the project's otherwise. *)
Definition effective_gitdir (a : args) : option string :=
  match a_project a with
  | Some project =>
      if negb (str_truthy (a_gitdir a)) then Some (gitdir project)
      else a_gitdir a
  | None => a_gitdir a
  end.

(** C6, amended. For every ambient environment and every combination of
    the flags, every name of the deny-list except [GIT_DIR] is absent from
    the child environment. [GIT_DIR] is absent unless [bare] is set and a
    non-empty git directory is known; it is then bound to that directory,
    never to the ambient value. *)
Theorem C6_deny_list_cleared (w : fs) (amb : ambient) (a : args)
    (g : globals) (e : string) :
  In e deny_list ->
  p_env (fst (init w amb a g)) !! e
  = if a_bare a && str_truthy (effective_gitdir a) && String.eqb e GIT_DIR
    then effective_gitdir a
    else None.
Proof.
  intros He. unfold init, effective_gitdir.
  pose proof (base_env_denied w amb (a_disable_editor a) g e He) as Hb.
  destruct (base_env w amb (a_disable_editor a) g) as [env g1]. simpl in Hb.
  destruct (a_project a) as [project|];
    destruct (a_bare a); simpl;
    repeat match goal with
           | |- context [str_truthy ?o] =>
               let E := fresh "E" in destruct (str_truthy o) eqn:E; simpl
           end;
    try exact Hb;
    try (destruct (String.eqb_spec e GIT_DIR) as [->|Hne];
         [ rewrite lookup_insert_eq;
           try reflexivity;
           match goal with
           | |- Some (default _ ?o) = ?o =>
               destruct o; [reflexivity | discriminate]
           end
         | rewrite lookup_insert_ne by congruence; exact Hb ]).
Qed.

End ChildEnvironment.

Section ChildEnvironmentSamples.
Import Py GitCommand.

Definition tmpfs : fs :=
  {| tmp_exists := true; gettempdir := "/var/tmp";
     mkdtemp := fun n dir => (dir ++ "/ssh-" ++ str_nat n)%string |}.

(** An outer invocation left [GIT_DIR] and [GIT_WORK_TREE] behind. *)
Definition nested : ambient :=
  {| environ := {[ "GIT_DIR" := "/outer/.git";
                   "GIT_WORK_TREE" := "/outer";
                   "HOME" := "/home/dev" ]};
     platform := "linux2";
     module_dir := "/opt/repo";
     ssh_proxy := false;
     TRACE := false |}.

(** [GitCommand(None, ['config', '--list'], bare=True, gitdir=...)]. *)
Definition bare_call : args :=
  {| a_project := None;
     a_cmdv := ["config"; "--list"];
     a_bare := true;
     a_provide_stdin := false;
     a_capture_stdout := true;
     a_capture_stderr := false;
     a_disable_editor := false;
     a_cwd := None;
     a_gitdir := Some "/w/.repo/manifests.git" |}.

(** C6, as stated, fails: with [bare] and a git directory, the child
    environment holds [GIT_DIR], which the ambient environment held too. *)
Lemma C6_bare_sets_GIT_DIR_counterexample :
  In GIT_DIR deny_list
  /\ is_Some (environ nested !! GIT_DIR)
  /\ ~ (p_env (fst (init tmpfs nested bare_call fresh)) !! GIT_DIR = None).
Proof.
  split; [right; left; reflexivity|].
  split; [vm_compute; eauto|].
  vm_compute. discriminate.
Qed.

Lemma C6_deny_list_cleared_witness :
  p_env (fst (init tmpfs nested bare_call fresh)) !! "GIT_WORK_TREE" = None
  /\ p_env (fst (init tmpfs nested bare_call fresh)) !! GIT_DIR
     = Some "/w/.repo/manifests.git".
Proof.
  split.
  - apply (C6_deny_list_cleared tmpfs nested bare_call fresh "GIT_WORK_TREE").
    vm_compute. tauto.
  - apply (C6_deny_list_cleared tmpfs nested bare_call fresh GIT_DIR).
    vm_compute. tauto.
Defined.

End ChildEnvironmentSamples.

(** ** The capture loop of [GitCommand.Wait] *)

Module Streams.
Import Py Portable.

(** What a child wrote to a pipe: its chunks, in order, end to end. *)
Definition content (chunks : list string) : string :=
  foldr String.append "" chunks.

(** A chunk that [read] returns before end-of-stream is not empty. *)
Definition chunked (chunks : list string) : Prop :=
  Forall (fun c => c <> "") chunks.

(** The wait set only ever loses readers. *)
Definition wait_set (l : list std) : Prop :=
  l = [Stdout; Stderr] \/ l = [Stdout] \/ l = [Stderr] \/ l = [].

Lemma append_assoc (a b c : string) :
  ((a ++ b) ++ c = a ++ (b ++ c))%string.
Proof.
  induction a as [|x a IH]; [reflexivity|].
  change (String x ((a ++ b) ++ c) = String x (a ++ (b ++ c)))%string.
  now rewrite IH.
Qed.

Lemma append_nil_r (a : string) : (a ++ "" = a)%string.
Proof.
  induction a as [|x a IH]; [reflexivity|].
  change (String x (a ++ "") = String x a)%string.
  now rewrite IH.
Qed.

Lemma is_eof_chunk (c : string) : c <> "" -> is_eof c = false.
Proof. intros H. unfold is_eof. now apply String.eqb_neq. Qed.

Lemma wait_set_remove (s : std) (l : list std) :
  wait_set l -> wait_set (remove s l).
Proof.
  unfold wait_set.
  intros [->|[->|[->| ->]]]; destruct s; simpl; auto.
Qed.

Lemma remove_length (s : std) (l : list std) :
  In s l -> length (remove s l) < length l.
Proof.
  induction l as [|x l IH]; simpl; [easy|].
  case_decide as E; [lia|]. intros [->|Hin]; [contradiction|].
  specialize (IH Hin). simpl. lia.
Qed.

Lemma remove_keeps (s t : std) (l : list std) :
  s <> t -> In t l -> In t (remove s l).
Proof.
  intros Hne. induction l as [|x l IH]; simpl; [easy|].
  case_decide as E.
  - intros [->|Hin]; [congruence | exact Hin].
  - intros [->|Hin]; [now left | right; auto].
Qed.

Lemma remove_not_in (s : std) (l : list std) :
  wait_set l -> ~ In s (remove s l).
Proof.
  unfold wait_set.
  intros [->|[->|[->| ->]]]; destruct s; simpl; intuition discriminate.
Qed.

(** What [select] can answer on a non-empty wait set. *)
Lemma select_answers (r : ready) (l in_ready : list std) :
  wait_set l -> l <> [] ->
  select r l = Ok in_ready ->
  (exists s, in_ready = [s] /\ In s l)
  \/ (in_ready = [Stdout; Stderr] /\ l = [Stdout; Stderr]).
Proof.
  unfold wait_set.
  intros [->|[->|[->| ->]]] Hne; [| | |contradiction];
    destruct r; simpl; intros [= <-];
    first [ right; split; reflexivity
          | left; eexists; split; [reflexivity | simpl; auto] ].
Qed.

End Streams.

Section WaitCapture.
Import Py Portable GitCommand Streams.
Variable tee : std -> bool.
Variable c : child.

(** What is left to do: chunks to read and readers to close. *)
Definition wait_measure (st : wait_state) : nat :=
  length (pend_out st) + length (pend_err st) + length (s_in st).

(** The loop invariant: each capture followed by what its pipe has yet to
    deliver is the whole content of the pipe, and a reader that left the
    wait set has delivered everything. *)
Record wait_inv (st : wait_state) : Prop := {
  inv_set : wait_set (s_in st);
  inv_out_chunked : chunked (pend_out st);
  inv_err_chunked : chunked (pend_err st);
  inv_out : (stdout st ++ content (pend_out st))%string
            = content (out_chunks c);
  inv_err : (stderr st ++ content (pend_err st))%string
            = content (err_chunks c);
  inv_out_closed : ~ In Stdout (s_in st) -> pend_out st = [];
  inv_err_closed : ~ In Stderr (s_in st) -> pend_err st = []
}.

Lemma wait_start_inv :
  chunked (out_chunks c) -> chunked (err_chunks c) -> wait_inv (wait_start c).
Proof.
  intros Ho He. split; simpl; auto.
  - left. reflexivity.
  - intros H. exfalso. apply H. now left.
  - intros H. exfalso. apply H. right. now left.
Qed.

(** One pass of the body on a reader of the wait set. *)
Lemma wait_body_inv (st : wait_state) (s : std) :
  wait_inv st ->
  In s (s_in st) ->
  wait_inv (wait_body tee st s)
  /\ wait_measure (wait_body tee st s) < wait_measure st
  /\ (forall t, t <> s -> In t (s_in st) -> In t (s_in (wait_body tee st s))).
Proof.
  intros [Hset Hoc Hec Hout Herr Hocl Hecl] Hs.
  unfold wait_body, read_from, wait_measure.
  destruct s.
  - destruct (pend_out st) as [|b bs] eqn:E; simpl.
    + split; [|split].
      * split; simpl; rewrite ?E; auto using wait_set_remove.
        intros H. apply Hecl. intros Hin. apply H.
        apply remove_keeps; [discriminate | exact Hin].
      * pose proof (remove_length Stdout (s_in st) Hs). lia.
      * intros t Ht Hin. apply remove_keeps; [congruence | exact Hin].
    + inversion Hoc as [|? ? Hb Hbs]; subst.
      rewrite (is_eof_chunk b Hb). simpl. split; [|split].
      * split; simpl; rewrite ?E; auto.
        -- rewrite append_assoc. exact Hout.
        -- intros H. contradiction.
      * lia.
      * intros t _ Hin. exact Hin.
  - destruct (pend_err st) as [|b bs] eqn:E; simpl.
    + split; [|split].
      * split; simpl; rewrite ?E; auto using wait_set_remove.
        intros H. apply Hocl. intros Hin. apply H.
        apply remove_keeps; [discriminate | exact Hin].
      * pose proof (remove_length Stderr (s_in st) Hs). lia.
      * intros t Ht Hin. apply remove_keeps; [congruence | exact Hin].
    + inversion Hec as [|? ? Hb Hbs]; subst.
      rewrite (is_eof_chunk b Hb). simpl. split; [|split].
      * split; simpl; rewrite ?E; auto.
        -- rewrite append_assoc. exact Herr.
        -- intros H. contradiction.
      * lia.
      * intros t _ Hin. exact Hin.
Qed.

(** One iteration of the loop. *)
Lemma wait_iteration_inv (st : wait_state) (r : ready) (in_ready : list std) :
  wait_inv st ->
  s_in st <> [] ->
  select r (s_in st) = Ok in_ready ->
  wait_inv (foldl (wait_body tee) st in_ready)
  /\ wait_measure (foldl (wait_body tee) st in_ready) < wait_measure st.
Proof.
  intros Hinv Hne Hsel.
  destruct (select_answers r _ _ (inv_set _ Hinv) Hne Hsel)
    as [(s & -> & Hs) | [-> Hl]]; simpl.
  - destruct (wait_body_inv st s Hinv Hs) as (H1 & H2 & _). auto.
  - assert (Ho : In Stdout (s_in st)) by (rewrite Hl; now left).
    assert (He : In Stderr (s_in st)) by (rewrite Hl; right; now left).
    destruct (wait_body_inv st Stdout Hinv Ho) as (H1 & H2 & H3).
    assert (He' : In Stderr (s_in (wait_body tee st Stdout)))
      by (apply H3; [discriminate | exact He]).
    destruct (wait_body_inv _ Stderr H1 He') as (H4 & H5 & _).
    split; [exact H4 | lia].
Qed.

(** The loop ends within its bound when no signal interrupts it, with both
    readers closed and the invariant kept. *)
Lemma wait_loop_ends (sel : nat -> ready) (fuel i : nat) (st : wait_state) :
  (forall j, sel j <> Sigint) ->
  wait_inv st ->
  wait_measure st <= fuel ->
  exists st',
    wait_loop tee sel fuel i st = Some (Ok st')
    /\ wait_inv st' /\ s_in st' = [].
Proof.
  intros Hsel. revert i st.
  induction fuel as [|fuel IH]; intros i st Hinv Hm.
  - destruct (s_in st) eqn:E.
    + exists st. simpl. rewrite E. auto.
    + unfold wait_measure in Hm. rewrite E in Hm. simpl in Hm. lia.
  - simpl. destruct (s_in st) as [|x l] eqn:E.
    + exists st. auto.
    + destruct (select (sel i) (x :: l)) as [in_ready|e] eqn:Es.
      * rewrite <- E in Es.
        destruct (wait_iteration_inv st (sel i) in_ready Hinv) as [H1 H2];
          [rewrite E; discriminate | exact Es |].
        apply IH; [exact H1 | lia].
      * exfalso. specialize (Hsel i).
        destruct (sel i); simpl in Es; try discriminate. contradiction.
Qed.

End WaitCapture.

Section WaitResult.
Import Py Portable GitCommand Streams.

(** C8. For a child spawned with both pipes captured, whatever the sizes
    of the chunks that [read] returns, whichever reader [select] reports
    ready at each turn, and whatever is echoed: when no signal interrupts
    the loop, [Wait] ends, the captured stdout is the whole content of the
    child's stdout in order, the captured stderr the whole content of its
    stderr in order, and the return value is the child's exit status. *)
Theorem C8_wait_captures_streams (tee : std -> bool) (sel : nat -> ready)
    (c : child) :
  chunked (out_chunks c) ->
  chunked (err_chunks c) ->
  (forall j, sel j <> Sigint) ->
  exists echo,
    Wait tee sel c
    = Some (Ok {| w_status := status c;
                  w_stdout := content (out_chunks c);
                  w_stderr := content (err_chunks c);
                  w_tty := echo |}).
Proof.
  intros Ho He Hsel. unfold Wait.
  destruct (wait_loop_ends tee c sel (wait_bound c) 0 (wait_start c) Hsel
              (wait_start_inv c Ho He))
    as (st & -> & Hinv & Hnil).
  { unfold wait_measure, wait_bound. simpl. lia. }
  exists (tty st). f_equal. f_equal.
  destruct Hinv as [_ _ _ Hout Herr Hocl Hecl].
  rewrite Hnil in Hocl, Hecl.
  rewrite Hocl in Hout by (simpl; tauto).
  rewrite Hecl in Herr by (simpl; tauto).
  simpl in Hout, Herr. rewrite append_nil_r in Hout, Herr.
  now rewrite Hout, Herr.
Qed.

(** A child that writes two chunks on stdout, one on stderr, and exits
    with 3, read with both readers ready at every turn and stderr echoed. *)
Definition talker : child :=
  {| out_chunks := ["ab"; "c"]; err_chunks := ["warn"]; status := 3 |}.

Lemma C8_wait_captures_streams_witness :
  exists echo,
    Wait (fun s => bool_decide (s = Stderr)) (fun _ => PickAll) talker
    = Some (Ok {| w_status := 3; w_stdout := "abc"; w_stderr := "warn";
                  w_tty := echo |}).
Proof.
  apply (C8_wait_captures_streams (fun s => bool_decide (s = Stderr))
           (fun _ => PickAll) talker).
  - repeat constructor; discriminate.
  - repeat constructor; discriminate.
  - discriminate.
Defined.

(** The same child read one reader at a time gives the same captures. *)
Example Wait_talker_stdout_first :
  Wait (fun _ => false) (fun _ => PickFirst) talker
  = Some (Ok {| w_status := 3; w_stdout := "abc"; w_stderr := "warn";
                w_tty := [] |}).
Proof. vm_compute. reflexivity. Qed.

Example Wait_talker_interrupted :
  Wait (fun _ => false)
       (fun i => if Nat.eqb i 1 then Sigint else PickLast) talker
  = Some (Raise KeyboardInterrupt).
Proof. vm_compute. reflexivity. Qed.

End WaitResult.

(** ** The header loop of [DoWork] *)

Section HeaderLoop.
Import Py Portable Forall Streams.
Variables (project : descriptor) (mirror verbose : bool) (cnt : nat).

(** An event that shows nothing of the project: closing a pipe. *)
Definition quiet (e : event) : Prop :=
  e = StdinClose \/ exists s, e = Close s.

Definition header_measure (st : hstate) : nat :=
  length (pend_out st) + length (pend_err st) + length (s_in st).

(** The invariant of a run in which stdout delivers nothing and stderr
    delivers chunks only when [verbose] is off: nothing has been shown, and
    the banner is still to come. *)
Record silent_inv (st : hstate) : Prop := {
  sil_set : wait_set (s_in st);
  sil_out : pend_out st = [];
  sil_empty : empty st = true;
  sil_events : Forall quiet (events st);
  sil_err : verbose = false \/ pend_err st = []
}.

Lemma header_body_silent (st : hstate) (s : std) :
  silent_inv st ->
  In s (s_in st) ->
  silent_inv (header_body project mirror verbose cnt st s)
  /\ header_measure (header_body project mirror verbose cnt st s)
     < header_measure st
  /\ (forall t, t <> s -> In t (s_in st) ->
                In t (s_in (header_body project mirror verbose cnt st s))).
Proof.
  intros [Hset Hout Hempty Hev Herr] Hs.
  assert (Hclose : forall s', Forall quiet (events st ++ [Close s'])).
  { intros s'. apply Forall_app. split; [exact Hev|].
    constructor; [right; eauto | constructor]. }
  unfold header_body, read_from, header_measure.
  destruct s.
  - rewrite Hout. simpl. split; [|split].
    + split; simpl; auto using wait_set_remove.
    + pose proof (remove_length Stdout (s_in st) Hs). rewrite ?Hout. simpl. lia.
    + intros t Ht Hin. apply remove_keeps; [congruence | exact Hin].
  - destruct (pend_err st) as [|b bs] eqn:E; simpl.
    + split; [|split].
      * split; simpl; auto using wait_set_remove.
      * pose proof (remove_length Stderr (s_in st) Hs). lia.
      * intros t Ht Hin. apply remove_keeps; [congruence | exact Hin].
    + destruct Herr as [-> | Hnil]; [|discriminate].
      destruct (is_eof b); simpl.
      * split; [|split].
        -- split; simpl; auto using wait_set_remove.
        -- pose proof (remove_length Stderr (s_in st) Hs). lia.
        -- intros t Ht Hin. apply remove_keeps; [congruence | exact Hin].
      * split; [|split].
        -- split; simpl; auto.
        -- lia.
        -- intros t _ Hin. exact Hin.
Qed.

Lemma header_iteration_silent (st : hstate) (r : ready)
    (in_ready : list std) :
  silent_inv st ->
  s_in st <> [] ->
  select r (s_in st) = Ok in_ready ->
  silent_inv (foldl (header_body project mirror verbose cnt) st in_ready)
  /\ header_measure (foldl (header_body project mirror verbose cnt) st in_ready)
     < header_measure st.
Proof.
  intros Hinv Hne Hsel.
  destruct (select_answers r _ _ (sil_set _ Hinv) Hne Hsel)
    as [(s & -> & Hs) | [-> Hl]]; simpl.
  - destruct (header_body_silent st s Hinv Hs) as (H1 & H2 & _). auto.
  - assert (Ho : In Stdout (s_in st)) by (rewrite Hl; now left).
    assert (He : In Stderr (s_in st)) by (rewrite Hl; right; now left).
    destruct (header_body_silent st Stdout Hinv Ho) as (H1 & H2 & H3).
    assert (He' : In Stderr
                    (s_in (header_body project mirror verbose cnt st Stdout)))
      by (apply H3; [discriminate | exact He]).
    destruct (header_body_silent _ Stderr H1 He') as (H4 & H5 & _).
    split; [exact H4 | lia].
Qed.

Lemma header_loop_silent (sel : nat -> ready) (fuel i : nat) (st : hstate) :
  (forall j, sel j <> Sigint) ->
  silent_inv st ->
  header_measure st <= fuel ->
  exists st' i',
    header_loop project mirror verbose cnt sel fuel i st = Some (st', Ok i')
    /\ silent_inv st'.
Proof.
  intros Hsel. revert i st.
  induction fuel as [|fuel IH]; intros i st Hinv Hm.
  - destruct (s_in st) eqn:E.
    + exists st, i. simpl. rewrite E. auto.
    + unfold header_measure in Hm. rewrite E in Hm. simpl in Hm. lia.
  - simpl. destruct (s_in st) as [|x l] eqn:E.
    + exists st, i. auto.
    + destruct (select (sel i) (x :: l)) as [in_ready|e] eqn:Es.
      * rewrite <- E in Es.
        destruct (header_iteration_silent st (sel i) in_ready Hinv) as [H1 H2];
          [rewrite E; discriminate | exact Es |].
        apply IH; [exact H1 | lia].
      * exfalso. specialize (Hsel i).
        destruct (sel i); simpl in Es; try discriminate. contradiction.
Qed.

End HeaderLoop.

Section HeaderMode.
Import Py Portable Forall Streams Sample.

(** C1, amended. In header mode, a project whose child writes nothing on
    stdout gets no banner when [verbose] is off, however many chunks the
    child writes on stderr: the chunks go to the buffer and nothing is
    written, and [DoWork] only closes the pipes and returns the exit status.
    A project whose child writes nothing at all gets no banner either,
    whatever [verbose] is. *)
Theorem C1_no_banner_without_stdout (w : world) (project : descriptor)
    (mirror : bool) (opt : opts) (cmd : list string) (shell : bool)
    (cnt : nat) (config : bool) (p : child) :
  project_header opt = true ->
  path_exists w (work_cwd project mirror) = true ->
  popen w cmd (work_cwd project mirror) shell
        (work_env (os_environ w) project mirror cnt) = Ok p ->
  (forall j, sel w j <> Sigint) ->
  out_chunks p = [] ->
  verbose opt = false \/ err_chunks p = [] ->
  exists r,
    DoWork w project mirror opt cmd shell cnt config = Some r
    /\ ret r = Ok (PInt (status p))
    /\ Forall quiet (written r)
    /\ (forall text, ~ In (Banner text) (written r))
    /\ (forall dest buf, ~ In (WriteTo dest buf) (written r)).
Proof.
  intros Hh Hex Hp Hsel Hout Herr.
  unfold DoWork. rewrite Hex, Hp, Hh. simpl.
  destruct (header_loop_silent project mirror (verbose opt) cnt (sel w)
              (header_bound p) 0 (header_start p) Hsel)
    as (st & i & -> & Hinv).
  { split; simpl; auto.
    - left. reflexivity.
    - constructor; [left; reflexivity | constructor]. }
  { unfold header_measure, header_bound. simpl. lia. }
  eexists. split; [reflexivity|]. simpl.
  assert (Hq : Forall quiet (events st)) by apply Hinv.
  split.
  { specialize (Hsel i). unfold wait. destruct (sel w i); congruence. }
  split; [exact Hq|].
  rewrite List.Forall_forall in Hq.
  split.
  - intros text Hin. destruct (Hq _ Hin) as [H | [s H]]; discriminate.
  - intros dest buf Hin. destruct (Hq _ Hin) as [H | [s H]]; discriminate.
Qed.

End HeaderMode.

Section HeaderModeSamples.
Import Py Portable Forall Streams Sample.

(** C1, as stated, fails: in header mode with [verbose] off, the child
    that writes two chunks on stderr and nothing on stdout gets no banner,
    and neither chunk is written. *)
Lemma C1_stderr_only_no_banner_counterexample :
  ~ (exists r,
        DoWork (worker true (fun _ => PickAll) warns) build false
               (headers false) ["ls-files"] false 1 false = Some r
        /\ (exists text, In (Banner text) (written r)))
  /\ DoWork (worker true (fun _ => PickAll) warns) build false
            (headers false) ["ls-files"] false 1 false
     = Some {| written := [StdinClose; Close Stdout; Close Stderr];
               ret := Ok (PInt 0) |}.
Proof.
  assert (E : DoWork (worker true (fun _ => PickAll) warns) build false
                (headers false) ["ls-files"] false 1 false
              = Some {| written := [StdinClose; Close Stdout; Close Stderr];
                        ret := Ok (PInt 0) |})
    by (vm_compute; reflexivity).
  split; [|exact E].
  rewrite E. intros (r & [= <-] & text & Hin). simpl in Hin.
  intuition discriminate.
Qed.

Lemma C1_no_banner_without_stdout_witness :
  exists r,
    DoWork (worker true (fun _ => PickLast) warns) build false
           (headers false) ["ls-files"] false 1 false = Some r
    /\ ret r = Ok (PInt 0)
    /\ Forall quiet (written r)
    /\ (forall text, ~ In (Banner text) (written r))
    /\ (forall dest buf, ~ In (WriteTo dest buf) (written r)).
Proof.
  apply (C1_no_banner_without_stdout (worker true (fun _ => PickLast) warns)
           build false (headers false) ["ls-files"] false 1 false warns).
  - reflexivity.
  - reflexivity.
  - reflexivity.
  - discriminate.
  - reflexivity.
  - left. reflexivity.
Defined.

(** With [verbose] on, the same child gets its banner once, before the
    first chunk, and every chunk is written as it comes. *)
Example DoWork_warns_verbose :
  DoWork (worker true (fun _ => PickAll) warns) build false
         (headers true) ["ls-files"] false 1 false
  = Some {| written :=
              [StdinClose; Close Stdout;
               Nl; Banner "project build/"; Nl; OutFlush;
               WriteTo Stderr "warning: a"; FlushTo Stderr;
               WriteTo Stderr "warning: b"; FlushTo Stderr;
               Close Stderr];
            ret := Ok (PInt 0) |}.
Proof. vm_compute. reflexivity. Qed.

(** With [verbose] off, the buffered stderr is flushed after the banner
    once a chunk of stdout arrives; the first project of a run gets no
    separator line. *)
Example DoWork_buffered_stderr_flushed :
  DoWork (worker true (fun i => if Nat.eqb i 0 then PickLast else PickAll)
            {| out_chunks := ["M file"]; err_chunks := ["warning: a"];
               status := 1 |})
         build false (headers false) ["status"] false 0 false
  = Some {| written :=
              [StdinClose;
               Banner "project build/"; Nl; OutFlush;
               WriteTo Stderr "warning: a"; FlushTo Stderr;
               WriteTo Stdout "M file"; FlushTo Stdout;
               Close Stderr; Close Stdout];
            ret := Ok (PInt 1) |}.
Proof. vm_compute. reflexivity. Qed.

End HeaderModeSamples.


(** * More of the two files *)

(** ** git_command.py: the registry of ssh clients, lines 36 and 59 to 76 *)

Module SshClients.
Import Py.

Section Registry.
(** A spawned process object; [pid] is its [p.pid]. Two objects are the
    same client when they are equal. *)
Context {client : Type} `{EqDecision client}.
Variable pid : client -> nat.

(** [_ssh_clients.append(p)]. *)
Definition _add_ssh_client (p : client) (_ssh_clients : list client)
  : list client :=
  _ssh_clients ++ [p].

(** [list.remove(p)]: drops the first element equal to [p]; [None] stands
    for the [ValueError] of a list without [p]. *)
Fixpoint list_remove (p : client) (l : list client) : option (list client) :=
  match l with
  | [] => None
  | x :: xs =>
      if decide (x = p) then Some xs
      else match list_remove p xs with
           | Some xs' => Some (x :: xs')
           | None => None
           end
  end.

(** [_remove_ssh_client(p)]: the [ValueError] is passed over. *)
Definition _remove_ssh_client (p : client) (_ssh_clients : list client)
  : list client :=
  match list_remove p _ssh_clients with
  | Some l => l
  | None => _ssh_clients
  end.





End Registry.

End SshClients.

(** ** git_command.py: [_GitCall.__getattr__] and the spawn of
    [GitCommand.__init__] *)

Module GitCall.
Import Py Portable GitCommand.

(** [name.replace('_', '-')]. *)
Fixpoint dashed (name : string) : string :=
  match name with
  | EmptyString => EmptyString
  | String c rest =>
      String (if Ascii.eqb c "_" then "-"%char else c) (dashed rest)
  end.

(** The arguments with which the function that [__getattr__(name)] returns
    builds its [GitCommand(None, command)] from its arguments [cmdv], lines
    98 to 102. *)
Definition getattr_args (name : string) (cmdv : list string) : args :=
  {| a_project := None;
     a_cmdv := dashed name :: cmdv;
     a_bare := false;
     a_provide_stdin := false;
     a_capture_stdout := false;
     a_capture_stderr := false;
     a_disable_editor := false;
     a_cwd := None;
     a_gitdir := None |}.



End GitCall.

(** ** forall.py: the command line and the count of [Execute], lines 29 to
    34, 89 to 119 and 138 *)

Module CommandLine.
Import Py.

Definition _CAN_COLOR : list string := ["branch"; "diff"; "grep"; "log"].

(** A character of the class [[a-z0-9A-Z_/\.-]]. *)
Definition safe_char (c : ascii) : bool :=
  let n := nat_of_ascii c in
  (Nat.leb 97 n && Nat.leb n 122)
  || (Nat.leb 48 n && Nat.leb n 57)
  || (Nat.leb 65 n && Nat.leb n 90)
  || Ascii.eqb c "_" || Ascii.eqb c "/" || Ascii.eqb c "." || Ascii.eqb c "-".

(** The rest of a match of [[...]+$]: characters of the class up to the
    end of the string, where [$] also matches before one last newline. *)
Fixpoint safe_to_end (s : string) : bool :=
  match s with
  | EmptyString => true
  | String c rest =>
      if safe_char c then safe_to_end rest
      else Ascii.eqb c "010" && String.eqb rest ""
  end.

(** [re.compile(r'^[a-z0-9A-Z_/\.-]+$').match(s)] finds a match. *)
Definition shell_safe (s : string) : bool :=
  match s with
  | EmptyString => false
  | String c _ => safe_char c && safe_to_end s
  end.

(** [s.startswith('-')]. *)
Definition startswith_dash (s : string) : bool :=
  match s with
  | String c _ => Ascii.eqb c "-"
  | EmptyString => false
  end.

(** Lines 107 to 111: the first element that does not start with a dash. *)
Fixpoint first_non_flag (l : list string) : option string :=
  match l with
  | [] => None
  | cn :: rest => if negb (startswith_dash cn) then Some cn
                  else first_non_flag rest
  end.

(** [l.index(x)]; [None] stands for [ValueError]. *)
Fixpoint index (x : string) (l : list string) : option nat :=
  match l with
  | [] => None
  | y :: ys => if String.eqb y x then Some 0
               else match index x ys with
                    | Some i => Some (S i)
                    | None => None
                    end
  end.

(** [l.insert(i, x)]; an index past the end appends. *)
Definition insert_at (i : nat) (x : string) (l : list string) : list string :=
  take i l ++ x :: drop i l.

(** [x in l] for a list of strings. *)
Definition member (x : string) (l : list string) : bool :=
  existsb (String.eqb x) l.

(** Lines 89 to 119, for a command [c0 :: args] (with an empty
    [opt.command] line 87 leaves through [self.Usage()]): the command line
    handed to the workers, and [shell]. [is_on cn] is the color decision of
    [ColorCmd(config, cn)]. *)
Definition command_line (project_header : bool) (is_on : string -> bool)
    (c0 : string) (args : list string) : result (list string * bool) :=
  let cmd := [c0] in
  let shell := negb (shell_safe c0) in
  let cmd := if shell then cmd ++ [c0] else cmd in
  let cmd := cmd ++ args in
  if project_header && negb shell && String.eqb (hd "" cmd) "git" then
    match first_non_flag (tl cmd) with
    | Some cn =>
        if negb (String.eqb cn "") && member cn _CAN_COLOR then
          if is_on cn then
            match index cn cmd with
            | Some i => Ok (insert_at (i + 1) "--color" cmd, shell)
            | None =>
                Raise (Exception_ "ValueError" "x not in list" None)
            end
          else Ok (cmd, shell)
        else Ok (cmd, shell)
    | None => Ok (cmd, shell)
    end
  else Ok (cmd, shell).

(** Line 138: [os.environ['REPO_COUNT'] = str(len(projects))], set before
    the pool is created, so that every worker starts with it. *)
Definition with_count {P : Type} (environ : gmap string string)
    (projects : list P) : gmap string string :=
  <["REPO_COUNT" := str_nat (length projects)]> environ.

End CommandLine.

(** ** The registry of ssh clients *)

Section RegistryFacts.
Import Py SshClients.
Context {client : Type} `{EqDecision client}.
Variable pid : client -> nat.

Lemma list_remove_absent (p : client) (l : list client) :
  ~ In p l -> list_remove p l = None.
Proof.
  induction l as [|x l IH]; simpl; [reflexivity|].
  intros Hn. case_decide as E; [exfalso; apply Hn; now left|].
  rewrite IH; [reflexivity|]. intros Hin. apply Hn. now right.
Qed.

Lemma list_remove_present (p : client) (l : list client) :
  In p l ->
  exists before after,
    l = before ++ p :: after
    /\ ~ In p before
    /\ list_remove p l = Some (before ++ after).
Proof.
  induction l as [|x l IH]; simpl; [easy|].
  intros Hin. case_decide as E.
  - subst x. exists [], l. repeat split. intros [].
  - destruct Hin as [->|Hin]; [contradiction|].
    destruct (IH Hin) as (before & after & -> & Hnb & ->).
    exists (x :: before), after. repeat split.
    intros [->|Hb]; [now apply E | now apply Hnb].
Qed.

(** Unregistering a client that is not registered changes nothing; a
    client registered and then unregistered leaves the registry with the
    same clients, and with the very same list when it was not registered
    twice. The registration that goes is the oldest one. *)
Theorem registry_add_remove (p : client) (l : list client) :
  Permutation (_remove_ssh_client p (_add_ssh_client p l)) l
  /\ (~ In p l -> _remove_ssh_client p (_add_ssh_client p l) = l)
  /\ (~ In p l -> _remove_ssh_client p l = l)
  /\ (forall before after,
         l = before ++ p :: after -> ~ In p before ->
         _remove_ssh_client p l = before ++ after).
Proof.
  unfold _remove_ssh_client, _add_ssh_client.
  split; [|split; [|split]].
  - destruct (list_remove_present p (l ++ [p])) as (b & a & E & Hb & ->).
    { apply in_app_iff. right. now left. }
    apply (Permutation_app_inv_l [p]). simpl.
    transitivity (b ++ p :: a).
    + apply Permutation_middle.
    + rewrite <- E. symmetry. apply Permutation_cons_append.
  - intros Hn.
    destruct (list_remove_present p (l ++ [p])) as (b & a & E & Hb & ->).
    { apply in_app_iff. right. now left. }
    assert (Hl : forall (b a : list client),
               l ++ [p] = b ++ p :: a -> ~ In p l -> l = b /\ a = []).
    { clear. induction l as [|x l IH]; intros b a E Hn.
      - destruct b as [|y b]; simpl in E.
        + inversion E; subst. auto.
        + inversion E as [[E1 E2]]. now destruct b.
      - destruct b as [|y b]; simpl in E.
        + inversion E; subst. exfalso. apply Hn. now left.
        + inversion E as [[E1 E2]]. subst y.
          destruct (IH b a E2) as [-> ->].
          * intros Hin. apply Hn. now right.
          * auto. }
    destruct (Hl b a E Hn) as [-> ->]. apply app_nil_r.
  - intros Hn. now rewrite list_remove_absent.
  - intros before after -> Hnb.
    assert (E : list_remove p (before ++ p :: after) = Some (before ++ after)).
    { clear -Hnb. induction before as [|x before IH]; simpl.
      - now rewrite decide_True.
      - rewrite decide_False by (intros ->; apply Hnb; now left).
        rewrite IH; [reflexivity|]. intros Hin. apply Hnb. now right. }
    now rewrite E.
Qed.


End RegistryFacts.

(** ** The command line of [Forall.Execute] *)

Section CommandLineFacts.
Import Py CommandLine.







Lemma first_non_flag_flags (flags : list string) (cn : string)
    (rest : list string) :
  List.Forall (fun f => startswith_dash f = true) flags ->
  startswith_dash cn = false ->
  first_non_flag (flags ++ cn :: rest) = Some cn.
Proof.
  intros Hf Hcn. induction Hf as [|f flags Hd _ IH]; simpl.
  - now rewrite Hcn.
  - now rewrite Hd.
Qed.

Lemma index_after_flags (flags : list string) (cn : string)
    (rest : list string) :
  List.Forall (fun f => startswith_dash f = true) flags ->
  startswith_dash cn = false ->
  index cn (flags ++ cn :: rest) = Some (length flags).
Proof.
  intros Hf Hcn. induction Hf as [|f flags Hd _ IH]; simpl.
  - now rewrite String.eqb_refl.
  - destruct (String.eqb_spec f cn) as [->|_]; [congruence|].
    now rewrite IH.
Qed.

(** In header mode, for a direct [git] command whose first word that is
    not a flag is one of [branch], [diff], [grep], [log]: when the color
    decision for that word is on, [--color] is inserted right after the
    word, behind whatever flags precede it, and nothing else changes; when
    the decision is off the command is left as it is. *)
Theorem command_line_color_after_subcommand (is_on : string -> bool)
    (flags : list string) (cn : string) (rest : list string) :
  List.Forall (fun f => startswith_dash f = true) flags ->
  In cn _CAN_COLOR ->
  command_line true is_on "git" (flags ++ cn :: rest)
  = Ok ("git" :: flags ++ cn :: (if is_on cn then ["--color"] else []) ++ rest,
        false).
Proof.
  intros Hf Hcn.
  assert (Hprops : startswith_dash cn = false
                   /\ String.eqb cn "" = false
                   /\ member cn _CAN_COLOR = true
                   /\ String.eqb "git" cn = false).
  { simpl in Hcn. destruct Hcn as [<-|[<-|[<-|[<-|[]]]]]; repeat split. }
  destruct Hprops as (Hd & Hne & Hm & Hg).
  unfold command_line.
  change (shell_safe "git") with true.
  cbn [negb andb app hd tl].
  change (String.eqb "git" "git") with true.
  cbn [negb andb].
  rewrite (first_non_flag_flags _ _ _ Hf Hd), Hne, Hm.
  cbn [negb andb].
  destruct (is_on cn); [|reflexivity].
  cbn [index]. rewrite Hg, (index_after_flags _ _ _ Hf Hd).
  unfold insert_at. f_equal. f_equal.
  replace (S (length flags) + 1) with (S (S (length flags))) by lia.
  cbn [take drop]. f_equal.
  replace (flags ++ cn :: rest) with ((flags ++ [cn]) ++ rest)
    by (rewrite <- app_assoc; reflexivity).
  rewrite take_app_length', drop_app_length'
    by (rewrite length_app; simpl; lia).
  simpl. rewrite <- app_assoc. reflexivity.
Qed.

Lemma command_line_color_after_subcommand_witness :
  command_line true (fun _ => true) "git" (["-c"; "-p"] ++ "log" :: ["-1"])
  = Ok (["git"; "-c"; "-p"; "log"; "--color"; "-1"], false).
Proof.
  apply (command_line_color_after_subcommand (fun _ => true) ["-c"; "-p"]
           "log" ["-1"]).
  - repeat constructor.
  - simpl. tauto.
Defined.

End CommandLineFacts.

(** ** More on the result collection of [Forall.Execute] *)

Section CollectFacts.
Import Py Forall Spec.

(** Under the abort policy the first nonzero code ends the collection:
    whatever the pool would deliver next, results or exceptions, is not
    looked at; the pool is terminated and joined, the error is reported, and
    the process exits with that code. *)
Theorem Execute_aborts_on_first_error (zeros : list Z) (c : Z)
    (rest : list (result pyval)) :
  List.Forall (fun z => z = 0%Z) zeros ->
  c <> 0%Z ->
  Execute_results true (returned zeros ++ Ok (PInt c) :: rest)
  = {| rc := PInt c;
       terminated := true;
       joined := true;
       sys_exit := Some (PInt c);
       log := [PrintStderr
                 "Got an error, terminating the pool: Exception: Aborting due to previous error"] |}.
Proof.
  intros Hz Hc. unfold Execute_results, returned.
  replace (map (fun z => Ok (PInt z)) zeros) with (map Ok (map PInt zeros))
    by (rewrite map_map; reflexivity).
  rewrite collect_skip_zeros.
  - assert (Hb : (c =? 0)%Z = false) by now apply Z.eqb_neq.
    simpl. unfold py_or. simpl. rewrite !Hb.
    cbn [negb andb ne0 truthy]. rewrite !Hb.
    cbn [negb ne0]. rewrite Hb. reflexivity.
  - clear -Hz. induction Hz as [|z zs Hz _ IH]; constructor; [|exact IH].
    subst z. reflexivity.
Qed.

Lemma Execute_aborts_on_first_error_witness :
  Execute_results true
    (returned [0; 0]%Z ++ Ok (PInt 2) :: [Ok (PInt 5); Raise KeyboardInterrupt])
  = {| rc := PInt 2;
       terminated := true;
       joined := true;
       sys_exit := Some (PInt 2);
       log := [PrintStderr
                 "Got an error, terminating the pool: Exception: Aborting due to previous error"] |}.
Proof.
  apply (Execute_aborts_on_first_error [0; 0]%Z 2%Z
           [Ok (PInt 5); Raise KeyboardInterrupt]).
  - repeat constructor.
  - discriminate.
Defined.



(** The exit status after a collection that no exception ended. *)
Lemma exit_status_no_abort (rs : list pyval) :
  exit_status (Execute_results false (map Ok rs))
  = default (PInt 0) (first_truthy rs)
  /\ terminated (Execute_results false (map Ok rs)) = false.
Proof.
  unfold Execute_results.
  rewrite <- (app_nil_r (map Ok rs)), collect_no_abort. simpl.
  split; [|reflexivity]. unfold exit_status. simpl.
  destruct (first_truthy rs) as [v|] eqn:Hf.
  - rewrite (foldl_py_or_first rs (PInt 0) v eq_refl Hf).
    unfold first_truthy in Hf. apply find_some in Hf as [_ Hv].
    destruct v as [|z]; [discriminate|]. simpl in *. rewrite Hv. reflexivity.
  - pose proof (foldl_py_or_none rs (PInt 0) Hf eq_refl) as Ht.
    destruct (foldl py_or (PInt 0) rs) as [|z]; simpl in *; [reflexivity|].
    rewrite Ht. reflexivity.
Qed.

(** With the abort policy off, a project that was skipped because its
    directory is missing, whose worker returned [None], changes neither the
    exit status of the process nor the fate of the pool, wherever its result
    is delivered among the others. *)
Theorem skipped_project_keeps_exit_status (pre post : list pyval) :
  exit_status (Execute_results false (map Ok (pre ++ PNone :: post)))
  = exit_status (Execute_results false (map Ok (pre ++ post)))
  /\ terminated (Execute_results false (map Ok (pre ++ PNone :: post))) = false.
Proof.
  destruct (exit_status_no_abort (pre ++ PNone :: post)) as [-> ->].
  destruct (exit_status_no_abort (pre ++ post)) as [-> _].
  split; [|reflexivity]. f_equal. unfold first_truthy.
  induction pre as [|r pre IH]; simpl; [reflexivity|].
  destruct (truthy r); [reflexivity | exact IH].
Qed.

End CollectFacts.

(** ** More on the environment of a worker's child *)

Section WorkerEnvironmentFacts.
Import Py Forall CommandLine.

Definition per_project_names : list string :=
  ["REPO_PROJECT"; "REPO_PATH"; "REPO_REMOTE"; "REPO_LREV"; "REPO_RREV";
   "REPO_I"].

Lemma annotation_key (d : descriptor) (k : string) :
  In k (map fst (map_to_list (annotations d))) ->
  is_Some (annotations d !! k).
Proof.
  intros Hin. apply in_map_iff in Hin as ([k' v] & <- & Hin). simpl.
  apply list_elem_of_In, elem_of_map_to_list in Hin. eauto.
Qed.

(** [DoWork] changes nothing else in the environment it copies: a variable
    that is not one of the six per-project names and not the variable of an
    annotation reaches the child as the worker has it, except [GIT_DIR] in
    mirror mode, which is the project's git directory. *)
Theorem work_env_frame (environ : gmap string string) (d : descriptor)
    (mirror : bool) (cnt : nat) (x : string) :
  ~ In x per_project_names ->
  (forall k, is_Some (annotations d !! k) -> x <> ("REPO__" ++ k)%string) ->
  work_env environ d mirror cnt !! x
  = if mirror && String.eqb x "GIT_DIR" then Some (gitdir d)
    else environ !! x.
Proof.
  intros Hx Ha. unfold work_env.
  match goal with
  | |- context [foldl _ ?e (map_to_list _)] =>
      fold (set_annotations e (map_to_list (annotations d)))
  end.
  assert (Hbase : forall e,
             set_annotations e (map_to_list (annotations d)) !! x = e !! x).
  { intros e. apply set_annotations_other. intros k Hk.
    apply Ha, annotation_key, Hk. }
  assert (Hsix : (setenv (setenv (setenv (setenv (setenv (setenv environ
                    "REPO_PROJECT" (name d))
                    "REPO_PATH" (relpath d))
                    "REPO_REMOTE" (remote_name d))
                    "REPO_LREV" (lrev d))
                    "REPO_RREV" (rrev d))
                    "REPO_I" (Some (str_nat (cnt + 1)))) !! x
                 = environ !! x).
  { unfold per_project_names in Hx. simpl in Hx.
    rewrite !setenv_lookup_ne by (intros E; apply Hx; rewrite <- E; tauto).
    reflexivity. }
  destruct mirror; simpl.
  - destruct (String.eqb_spec x "GIT_DIR") as [->|Hne].
    + rewrite setenv_lookup. reflexivity.
    + rewrite setenv_lookup_ne by congruence. now rewrite Hbase, Hsix.
  - now rewrite Hbase, Hsix.
Qed.

Lemma work_env_frame_witness :
  work_env {[ "HOME" := "/home/dev" ]} Sample.build true 0 !! "HOME"
  = Some "/home/dev"
  /\ work_env {[ "HOME" := "/home/dev" ]} Sample.build true 0 !! "GIT_DIR"
     = Some "/w/.repo/projects/build.git".
Proof.
  split.
  - rewrite (work_env_frame {[ "HOME" := "/home/dev" ]} Sample.build true 0
               "HOME").
    + reflexivity.
    + simpl. intuition discriminate.
    + intros k _. cbv [String.append]. discriminate.
  - rewrite (work_env_frame {[ "HOME" := "/home/dev" ]} Sample.build true 0
               "GIT_DIR").
    + reflexivity.
    + simpl. intuition discriminate.
    + intros k _. cbv [String.append]. discriminate.
Defined.

(** [REPO_COUNT], set once by [Execute] before the pool starts, reaches
    the child of every worker unchanged, whatever the project and its
    annotations: it is the number of projects that [Execute] was given,
    those that are skipped later included. *)
Theorem REPO_COUNT_reaches_every_child {P : Type}
    (environ : gmap string string) (projects : list P) (d : descriptor)
    (mirror : bool) (cnt : nat) :
  work_env (with_count environ projects) d mirror cnt !! "REPO_COUNT"
  = Some (str_nat (length projects)).
Proof.
  rewrite work_env_fixed
    by (try discriminate; intros ?; cbv [String.append]; discriminate).
  rewrite !setenv_lookup_ne by discriminate.
  apply lookup_insert_eq.
Qed.

End WorkerEnvironmentFacts.

(** ** More on the environment that [GitCommand.__init__] derives *)

Section ChildEnvironmentFacts.
Import Py GitCommand.

Definition default_protocols : string :=
  "file:git:http:https:ssh:persistent-http:persistent-https:sso:rpc".

(** Past the cleaning, [__init__] only adds [GIT_DIR] to what [base_env]
    made. *)
Lemma init_env_other (w : fs) (amb : ambient) (a : args) (g : globals)
    (x : string) :
  x <> GIT_DIR ->
  p_env (fst (init w amb a g)) !! x
  = fst (base_env w amb (a_disable_editor a) g) !! x.
Proof.
  intros Hx. unfold init.
  destruct (base_env w amb (a_disable_editor a) g) as [env g1].
  destruct (a_project a); destruct (a_bare a); simpl;
    repeat match goal with
           | |- context [if ?b then _ else _] => destruct b
           end;
    rewrite ?lookup_insert_ne by congruence; reflexivity.
Qed.

(** The environment after the editor and the multiplexing steps. *)
Definition middle_env (w : fs) (amb : ambient) (disable_editor : bool)
    (g : globals) : gmap string string * globals :=
  let env := strip deny_list (environ amb) in
  let env := if disable_editor then _setenv env "GIT_EDITOR" ":" else env in
  if ssh_proxy amb then
    let '(sock, g) := ssh_sock w true g in
    let env := _setenv env "REPO_SSH_SOCK" (default "" sock) in
    let '(proxy, g) := _ssh_proxy (module_dir amb) g in
    (_setenv env "GIT_SSH" proxy, g)
  else (env, g).

(** The last two steps of [base_env], on the environment so far. *)
Definition last_steps (amb : ambient) (env : gmap string string)
  : gmap string string :=
  let env :=
    match env !! "http_proxy" with
    | Some hp =>
        if String.eqb "darwin" (platform amb) then
          let s := ("'http.proxy=" ++ hp ++ "'")%string in
          let s := match env !! "GIT_CONFIG_PARAMETERS" with
                   | Some p => (p ++ " " ++ s)%string
                   | None => s
                   end in
          _setenv env "GIT_CONFIG_PARAMETERS" s
        else env
    | None => env
    end in
  match env !! "GIT_ALLOW_PROTOCOL" with
  | None => _setenv env "GIT_ALLOW_PROTOCOL" default_protocols
  | Some _ => env
  end.

Lemma base_env_stages (w : fs) (amb : ambient) (disable_editor : bool)
    (g : globals) :
  base_env w amb disable_editor g
  = (last_steps amb (fst (middle_env w amb disable_editor g)),
     snd (middle_env w amb disable_editor g)).
Proof.
  unfold base_env, middle_env, last_steps.
  destruct (ssh_proxy amb).
  - destruct (ssh_sock w true g) as [sock g1].
    destruct (_ssh_proxy (module_dir amb) g1) as [proxy g2]. reflexivity.
  - reflexivity.
Qed.

(** A variable that the middle steps do not bind is still the ambient one,
    unless the cleaning removed it. *)
Lemma middle_env_other (w : fs) (amb : ambient) (disable_editor : bool)
    (g : globals) (x : string) :
  ~ In x deny_list ->
  x <> "REPO_SSH_SOCK" -> x <> "GIT_SSH" ->
  fst (middle_env w amb disable_editor g) !! x
  = if disable_editor && String.eqb x "GIT_EDITOR" then Some ":"
    else environ amb !! x.
Proof.
  intros Hd Hs Hp. unfold middle_env, _setenv.
  assert (E : (if disable_editor
               then <["GIT_EDITOR" := ":"]> (strip deny_list (environ amb))
               else strip deny_list (environ amb)) !! x
              = if disable_editor && String.eqb x "GIT_EDITOR" then Some ":"
                else environ amb !! x).
  { destruct disable_editor; cbn [andb]; [|now apply strip_other].
    destruct (String.eqb_spec x "GIT_EDITOR") as [->|Hne].
    - apply lookup_insert_eq.
    - rewrite lookup_insert_ne by congruence. now apply strip_other. }
  destruct (ssh_proxy amb); [|exact E].
  destruct (ssh_sock w true g) as [sock g1].
  destruct (_ssh_proxy (module_dir amb) g1) as [proxy g2]. cbn [fst].
  rewrite !lookup_insert_ne by congruence. exact E.
Qed.

(** Every variable of the ambient environment that is not on the
    deny-list and that the constructor does not bind itself is handed to
    the child as it is. *)
Theorem init_env_frame (w : fs) (amb : ambient) (a : args) (g : globals)
    (x : string) :
  ~ In x deny_list ->
  ~ In x injected ->
  p_env (fst (init w amb a g)) !! x = environ amb !! x.
Proof.
  intros Hd Hi.
  assert (Hne : forall n, In n injected -> x <> n).
  { intros n Hn ->. contradiction. }
  rewrite init_env_other
    by (intros ->; apply Hd; unfold deny_list; simpl; tauto).
  rewrite base_env_stages. simpl. unfold last_steps, _setenv.
  set (env := fst (middle_env w amb (a_disable_editor a) g)).
  assert (E : env !! x = environ amb !! x).
  { subst env. rewrite middle_env_other; auto.
    - replace (String.eqb x "GIT_EDITOR") with false.
      + now rewrite andb_false_r.
      + symmetry. apply String.eqb_neq, Hne. simpl. tauto.
    - apply Hne. simpl. tauto.
    - apply Hne. simpl. tauto. }
  clearbody env.
  assert (Hgcp : x <> "GIT_CONFIG_PARAMETERS") by (apply Hne; simpl; tauto).
  assert (Hgap : x <> "GIT_ALLOW_PROTOCOL") by (apply Hne; simpl; tauto).
  repeat match goal with
         | |- context [match ?e !! ?k with _ => _ end] => destruct (e !! k)
         | |- context [if ?b then _ else _] => destruct b
         end;
    rewrite ?lookup_insert_ne by congruence; exact E.
Qed.

Lemma init_env_frame_witness :
  p_env (fst (init tmpfs nested bare_call fresh)) !! "HOME"
  = Some "/home/dev".
Proof.
  rewrite (init_env_frame tmpfs nested bare_call fresh "HOME").
  - reflexivity.
  - unfold deny_list, REPO_TRACE, GIT_DIR. simpl. intuition discriminate.
  - unfold injected. simpl. intuition discriminate.
Defined.

End ChildEnvironmentFacts.

Section ChildEnvironmentOverlay.
Import Py GitCommand.

Lemma last_steps_other (amb : ambient) (env : gmap string string)
    (x : string) :
  x <> "GIT_CONFIG_PARAMETERS" -> x <> "GIT_ALLOW_PROTOCOL" ->
  last_steps amb env !! x = env !! x.
Proof.
  intros H1 H2. unfold last_steps, _setenv.
  repeat match goal with
         | |- context [match ?e !! ?k with _ => _ end] => destruct (e !! k)
         | |- context [if ?b then _ else _] => destruct b
         end;
    rewrite ?lookup_insert_ne by congruence; reflexivity.
Qed.

Lemma last_steps_protocols (amb : ambient) (env : gmap string string) :
  last_steps amb env !! "GIT_ALLOW_PROTOCOL"
  = Some (default default_protocols (env !! "GIT_ALLOW_PROTOCOL")).
Proof.
  unfold last_steps, _setenv.
  match goal with
  | |- context [match ?e !! "GIT_ALLOW_PROTOCOL" with _ => _ end] =>
      set (env1 := e)
  end.
  assert (E : env1 !! "GIT_ALLOW_PROTOCOL" = env !! "GIT_ALLOW_PROTOCOL").
  { subst env1.
    repeat match goal with
           | |- context [match ?e !! ?k with _ => _ end] => destruct (e !! k)
           | |- context [if ?b then _ else _] => destruct b
           end;
      rewrite ?lookup_insert_ne by discriminate; reflexivity. }
  clearbody env1. rewrite <- E.
  destruct (env1 !! "GIT_ALLOW_PROTOCOL") as [v|] eqn:Ev.
  - rewrite Ev. reflexivity.
  - apply lookup_insert_eq.
Qed.

Lemma last_steps_proxy (amb : ambient) (env : gmap string string) :
  last_steps amb env !! "GIT_CONFIG_PARAMETERS"
  = match env !! "http_proxy" with
    | Some hp =>
        if String.eqb "darwin" (platform amb) then
          Some (match env !! "GIT_CONFIG_PARAMETERS" with
                | Some p => p ++ " " ++ "'http.proxy=" ++ hp ++ "'"
                | None => "'http.proxy=" ++ hp ++ "'"
                end)%string
        else env !! "GIT_CONFIG_PARAMETERS"
    | None => env !! "GIT_CONFIG_PARAMETERS"
    end.
Proof.
  unfold last_steps, _setenv.
  match goal with
  | |- context [match ?e !! "GIT_ALLOW_PROTOCOL" with _ => _ end] =>
      set (env1 := e)
  end.
  assert (E : (match env1 !! "GIT_ALLOW_PROTOCOL" with
               | Some _ => env1
               | None => <["GIT_ALLOW_PROTOCOL" := default_protocols]> env1
               end) !! "GIT_CONFIG_PARAMETERS"
              = env1 !! "GIT_CONFIG_PARAMETERS").
  { destruct (env1 !! "GIT_ALLOW_PROTOCOL"); [reflexivity|].
    now rewrite lookup_insert_ne by discriminate. }
  rewrite E. subst env1.
  destruct (env !! "http_proxy") as [hp|]; [|reflexivity].
  destruct (String.eqb "darwin" (platform amb)); [|reflexivity].
  apply lookup_insert_eq.
Qed.

(** The editor is forced to the no-op [:] exactly when [disable_editor] is
    given, and is the ambient one otherwise; [GIT_ALLOW_PROTOCOL] is always
    set in the child, to the ambient value when there is one and to the
    default list of protocols otherwise. *)
Theorem init_env_editor_and_protocols (w : fs) (amb : ambient) (a : args)
    (g : globals) :
  p_env (fst (init w amb a g)) !! "GIT_EDITOR"
  = (if a_disable_editor a then Some ":"
     else environ amb !! "GIT_EDITOR")
  /\ p_env (fst (init w amb a g)) !! "GIT_ALLOW_PROTOCOL"
     = Some (default default_protocols (environ amb !! "GIT_ALLOW_PROTOCOL")).
Proof.
  assert (Hnd : forall x, In x injected -> ~ In x deny_list).
  { intros x Hx. unfold injected, deny_list, REPO_TRACE, GIT_DIR in *.
    simpl in *. intuition (subst; discriminate). }
  split.
  - rewrite init_env_other by discriminate.
    rewrite base_env_stages. cbn [fst].
    rewrite last_steps_other by discriminate.
    rewrite middle_env_other;
      [| apply Hnd; simpl; tauto | discriminate | discriminate].
    now destruct (a_disable_editor a).
  - rewrite init_env_other by discriminate.
    rewrite base_env_stages. cbn [fst].
    rewrite last_steps_protocols.
    rewrite middle_env_other;
      [| apply Hnd; simpl; tauto | discriminate | discriminate].
    now rewrite andb_false_r.
Qed.

(** On [darwin], an ambient [http_proxy] becomes an [http.proxy] setting in
    [GIT_CONFIG_PARAMETERS], appended after a space to the ambient
    parameters when there are some; on any other platform, or without
    [http_proxy], [GIT_CONFIG_PARAMETERS] is the ambient one. *)
Theorem init_env_http_proxy (w : fs) (amb : ambient) (a : args)
    (g : globals) :
  p_env (fst (init w amb a g)) !! "GIT_CONFIG_PARAMETERS"
  = match environ amb !! "http_proxy" with
    | Some hp =>
        if String.eqb "darwin" (platform amb) then
          Some (match environ amb !! "GIT_CONFIG_PARAMETERS" with
                | Some p => p ++ " " ++ "'http.proxy=" ++ hp ++ "'"
                | None => "'http.proxy=" ++ hp ++ "'"
                end)%string
        else environ amb !! "GIT_CONFIG_PARAMETERS"
    | None => environ amb !! "GIT_CONFIG_PARAMETERS"
    end.
Proof.
  assert (Hnd : forall x, x = "http_proxy" \/ x = "GIT_CONFIG_PARAMETERS" ->
                          ~ In x deny_list).
  { intros x Hx. unfold deny_list, REPO_TRACE, GIT_DIR.
    simpl. intuition (subst; discriminate). }
  rewrite init_env_other by discriminate.
  rewrite base_env_stages. cbn [fst].
  rewrite last_steps_proxy.
  rewrite !middle_env_other by (auto; discriminate).
  now rewrite !andb_false_r.
Qed.

(** The launcher path is either still to be computed or the path beside
    the module. *)
Definition proxy_inv (amb : ambient) (g : globals) : Prop :=
  _ssh_proxy_path g = None
  \/ _ssh_proxy_path g = Some (path_join (module_dir amb) "git_ssh").

(** [ssh_sock] leaves the launcher path alone and creates at most one
    directory. *)
Lemma ssh_sock_keeps (w : fs) (create : bool) (g : globals) :
  _ssh_proxy_path (snd (ssh_sock w create g)) = _ssh_proxy_path g
  /\ mkdtemp_calls (snd (ssh_sock w create g)) <= S (mkdtemp_calls g).
Proof.
  unfold ssh_sock. destruct (_ssh_sock_path g); simpl.
  - split; [reflexivity | lia].
  - destruct create; simpl; split; (reflexivity || lia).
Qed.

(** [_ssh_proxy] answers the path beside the module, caches it, and leaves
    the socket alone. *)
Lemma _ssh_proxy_cached (amb : ambient) (g : globals) :
  proxy_inv amb g ->
  fst (_ssh_proxy (module_dir amb) g) = path_join (module_dir amb) "git_ssh"
  /\ _ssh_proxy_path (snd (_ssh_proxy (module_dir amb) g))
     = Some (path_join (module_dir amb) "git_ssh")
  /\ _ssh_sock_path (snd (_ssh_proxy (module_dir amb) g)) = _ssh_sock_path g
  /\ mkdtemp_calls (snd (_ssh_proxy (module_dir amb) g)) = mkdtemp_calls g.
Proof.
  unfold proxy_inv, _ssh_proxy. intros [E | E]; rewrite E; simpl; auto.
Qed.

(** With multiplexing on, every construction of a [GitCommand] gives its
    child the one socket path of the process and the one launcher path: the
    first construction creates the socket directory, and every later one,
    starting from the globals that an earlier one left, finds both cached
    and creates nothing. *)
Theorem init_multiplexing_shared (w : fs) (amb : ambient) (a : args)
    (g : globals) :
  ssh_proxy amb = true ->
  socket_inv w g ->
  proxy_inv amb g ->
  let '(pa, g') := init w amb a g in
  p_env pa !! "REPO_SSH_SOCK" = Some (generated w)
  /\ p_env pa !! "GIT_SSH" = Some (path_join (module_dir amb) "git_ssh")
  /\ socket_inv w g'
  /\ proxy_inv amb g'
  /\ mkdtemp_calls g' = 1
  /\ mkdtemp_calls g' <= S (mkdtemp_calls g).
Proof.
  intros Hssh Hsock Hproxy.
  pose proof (init_env_other w amb a g "REPO_SSH_SOCK") as E1.
  pose proof (init_env_other w amb a g "GIT_SSH") as E2.
  assert (Eg : snd (init w amb a g)
               = snd (middle_env w amb (a_disable_editor a) g)).
  { unfold init. rewrite base_env_stages.
    destruct (a_project a); destruct (a_bare a); reflexivity. }
  destruct (init w amb a g) as [pa g']. simpl in E1, E2, Eg. subst g'.
  rewrite E1, E2 by discriminate. clear E1 E2.
  rewrite base_env_stages. cbn [fst].
  rewrite !last_steps_other by discriminate.
  unfold middle_env, _setenv. rewrite Hssh.
  destruct (ssh_sock_step w true g Hsock) as (Hinv & Hret & Hnone).
  destruct (ssh_sock_keeps w true g) as [Hkp Hkc].
  destruct (ssh_sock w true g) as [sock g1].
  simpl in Hinv, Hret, Hnone, Hkp, Hkc. subst sock.
  assert (Hp1 : proxy_inv amb g1).
  { unfold proxy_inv in *. now rewrite Hkp. }
  destruct (_ssh_proxy_cached amb g1 Hp1) as (Hq1 & Hq2 & Hq3 & Hq4).
  destruct (_ssh_proxy (module_dir amb) g1) as [proxy g2].
  simpl in Hq1, Hq2, Hq3, Hq4. subst proxy. cbn [fst snd].
  assert (Hs1 : _ssh_sock_path g1 = Some (generated w)
                /\ mkdtemp_calls g1 = 1).
  { destruct Hinv as [[Hp _] | Hi]; [|exact Hi].
    exfalso. destruct Hnone as [Hn _]. destruct (Hn Hp) as [_ Hf].
    discriminate Hf. }
  destruct Hs1 as [Hs1 Hc1].
  split; [|split; [|split; [|split; [|split]]]].
  - rewrite lookup_insert_ne by discriminate. apply lookup_insert_eq.
  - apply lookup_insert_eq.
  - right. rewrite Hq3, Hq4. auto.
  - right. exact Hq2.
  - now rewrite Hq4.
  - rewrite Hq4. exact Hkc.
Qed.

Lemma init_multiplexing_shared_witness :
  let amb := {| environ := environ nested; platform := "linux2";
                module_dir := "/opt/repo"; ssh_proxy := true;
                TRACE := false |} in
  let '(pa, g') := init tmpfs amb bare_call fresh in
  p_env pa !! "REPO_SSH_SOCK" = Some "/tmp/ssh-0/master-%r@%h:%p"
  /\ p_env pa !! "GIT_SSH" = Some "/opt/repo/git_ssh"
  /\ socket_inv tmpfs g'
  /\ proxy_inv amb g'
  /\ mkdtemp_calls g' = 1
  /\ mkdtemp_calls g' <= S (mkdtemp_calls fresh).
Proof.
  apply (init_multiplexing_shared tmpfs
           {| environ := environ nested; platform := "linux2";
              module_dir := "/opt/repo"; ssh_proxy := true;
              TRACE := false |} bare_call fresh).
  - reflexivity.
  - left. split; reflexivity.
  - left. reflexivity.
Defined.

End ChildEnvironmentOverlay.

(** ** The header loop of [DoWork], for any child *)

Section HeaderLoopGeneral.
Import Py Portable Forall Streams.
Variables (project : descriptor) (mirror verbose : bool) (cnt : nat).

Local Abbreviation body := (header_body project mirror verbose cnt).

(** One pass of the body on a reader of the wait set: the reader reads a
    chunk or leaves the set, and the other reader stays. *)
Lemma header_body_progress (st : hstate) (s : std) :
  wait_set (s_in st) ->
  In s (s_in st) ->
  wait_set (s_in (body st s))
  /\ header_measure (body st s) < header_measure st
  /\ (forall t, t <> s -> In t (s_in st) -> In t (s_in (body st s))).
Proof.
  intros Hset Hs.
  assert (Hrm : length (remove s (s_in st)) < length (s_in st))
    by (apply remove_length; exact Hs).
  assert (Hkeep : forall t, t <> s -> In t (s_in st) ->
                            In t (remove s (s_in st)))
    by (intros t Ht Hin; apply remove_keeps; [congruence | exact Hin]).
  unfold header_body, read_from, header_measure.
  destruct s.
  - destruct (pend_out st) as [|b bs]; simpl.
    + split; [auto using wait_set_remove|]. split; [lia | exact Hkeep].
    + destruct (is_eof b); simpl.
      * split; [auto using wait_set_remove|]. split; [lia | exact Hkeep].
      * rewrite andb_false_r.
        destruct (empty st); simpl;
          [destruct (negb (String.eqb (errbuf st) "")); simpl|];
          (split; [exact Hset|]; split; [lia | auto]).
  - destruct (pend_err st) as [|b bs]; simpl.
    + split; [auto using wait_set_remove|]. split; [lia | exact Hkeep].
    + destruct (is_eof b); simpl.
      * split; [auto using wait_set_remove|]. split; [lia | exact Hkeep].
      * destruct verbose; simpl.
        -- destruct (empty st); simpl;
             [destruct (negb (String.eqb (errbuf st) "")); simpl|];
             (split; [exact Hset|]; split; [lia | auto]).
        -- split; [exact Hset|]. split; [lia | auto].
Qed.

Section Invariant.
(** A property of the loop variables that every pass of the body keeps. *)
Variable Q : hstate -> Prop.
Hypothesis Q_body :
  forall st s, wait_set (s_in st) -> In s (s_in st) -> Q st -> Q (body st s).

Lemma header_iteration_keeps (st : hstate) (r : ready)
    (in_ready : list std) :
  wait_set (s_in st) ->
  Q st ->
  s_in st <> [] ->
  select r (s_in st) = Ok in_ready ->
  wait_set (s_in (foldl body st in_ready))
  /\ Q (foldl body st in_ready)
  /\ header_measure (foldl body st in_ready) < header_measure st.
Proof.
  intros Hset HQ Hne Hsel.
  destruct (select_answers r _ _ Hset Hne Hsel)
    as [(s & -> & Hs) | [-> Hl]]; simpl.
  - destruct (header_body_progress st s Hset Hs) as (H1 & H2 & _). auto.
  - assert (Ho : In Stdout (s_in st)) by (rewrite Hl; now left).
    assert (He : In Stderr (s_in st)) by (rewrite Hl; right; now left).
    destruct (header_body_progress st Stdout Hset Ho) as (H1 & H2 & H3).
    assert (He' : In Stderr (s_in (body st Stdout)))
      by (apply H3; [discriminate | exact He]).
    destruct (header_body_progress _ Stderr H1 He') as (H4 & H5 & _).
    split; [exact H4|]. split; [|lia].
    apply Q_body; auto.
Qed.

(** The loop ends within its bound, whatever [select] answers: with both
    readers closed, or with the [KeyboardInterrupt] of a signal; the
    property holds of the variables it ends with. *)
Lemma header_loop_ends (sel : nat -> ready) (fuel i : nat) (st : hstate) :
  wait_set (s_in st) ->
  Q st ->
  header_measure st <= fuel ->
  exists st' r,
    header_loop project mirror verbose cnt sel fuel i st = Some (st', r)
    /\ Q st'
    /\ match r with
       | Ok _ => s_in st' = []
       | Raise e => e = KeyboardInterrupt /\ exists j, sel j = Sigint
       end.
Proof.
  revert i st.
  induction fuel as [|fuel IH]; intros i st Hset HQ Hm.
  - destruct (s_in st) eqn:E.
    + exists st, (Ok i). simpl. rewrite E. auto.
    + unfold header_measure in Hm. rewrite E in Hm. simpl in Hm. lia.
  - simpl. destruct (s_in st) as [|x l] eqn:E.
    + exists st, (Ok i). auto.
    + destruct (select (sel i) (x :: l)) as [in_ready|e] eqn:Es.
      * rewrite <- E in Es, Hset.
        destruct (header_iteration_keeps st (sel i) in_ready Hset HQ)
          as (H1 & H2 & H3); [rewrite E; discriminate | exact Es |].
        apply IH; [exact H1 | exact H2 | lia].
      * exists st, (Raise e). split; [reflexivity|]. split; [exact HQ|].
        destruct (sel i) eqn:Ei; simpl in Es; try discriminate.
        injection Es as <-. eauto.
Qed.

End Invariant.

End HeaderLoopGeneral.

(** ** What [DoWork] shows in header mode *)

Section HeaderOutput.
Import Py Portable Forall Streams.
Variables (project : descriptor) (mirror verbose : bool) (cnt : nat).

Local Abbreviation body := (header_body project mirror verbose cnt).

Definition not_banner (e : event) : Prop := forall text, e <> Banner text.

(** The shape of what has been written: pipes closed quietly, then, once
    something is shown, the banner block and after it no second banner. *)
Definition banner_first (st : hstate) : Prop :=
  exists q shown,
    events st = q ++ shown
    /\ List.Forall quiet q
    /\ if empty st then shown = []
       else exists rest,
              shown = banner project mirror cnt ++ rest
              /\ List.Forall not_banner rest.

Lemma banner_first_body (st : hstate) (s : std) :
  banner_first st -> banner_first (body st s).
Proof.
  intros (q & shown & Hev & Hq & Hshown).
  assert (Hclose : forall s', quiet (Close s')) by (right; eauto).
  assert (Hnb : forall s' b,
             List.Forall not_banner [WriteTo s' b; FlushTo s'])
    by (repeat constructor; discriminate).
  assert (Step : forall (extra : list event) (st1 : hstate),
             events st1 = events st ++ extra ->
             empty st1 = empty st ->
             List.Forall not_banner extra ->
             List.Forall quiet extra \/ empty st = false ->
             banner_first st1).
  { intros extra st1 He1 Hem Hx Hcase. unfold banner_first.
    rewrite He1, Hev, Hem. destruct (empty st) eqn:Ee.
    - destruct Hcase as [Hx' | Hf]; [|discriminate]. subst shown.
      exists (q ++ extra), []. rewrite !app_nil_r.
      split; [reflexivity|]. split; [apply Forall_app; auto | reflexivity].
    - destruct Hshown as (rest & -> & Hrest).
      exists q, (banner project mirror cnt ++ rest ++ extra).
      split; [now rewrite <- !app_assoc|]. split; [exact Hq|].
      exists (rest ++ extra). split; [reflexivity | apply Forall_app; auto]. }
  unfold header_body, read_from.
  destruct s.
  - destruct (pend_out st) as [|b bs]; simpl.
    + apply (Step [Close Stdout]); simpl; auto.
      * repeat constructor; discriminate.
    + destruct (is_eof b); simpl.
      * apply (Step [Close Stdout]); simpl; auto.
        repeat constructor; discriminate.
      * rewrite andb_false_r. destruct (empty st) eqn:Ee; simpl.
        -- subst shown. rewrite app_nil_r in Hev.
           destruct (negb (String.eqb (errbuf st) "")); simpl;
             unfold banner_first; simpl; rewrite Hev;
             exists q; eexists; (split; [rewrite <- !app_assoc; reflexivity|]);
             (split; [exact Hq|]); eexists; (split; [reflexivity|]);
             repeat constructor; discriminate.
        -- apply (Step [WriteTo Stdout b; FlushTo Stdout]); simpl; auto.
  - destruct (pend_err st) as [|b bs]; simpl.
    + apply (Step [Close Stderr]); simpl; auto.
      repeat constructor; discriminate.
    + destruct (is_eof b); simpl.
      * apply (Step [Close Stderr]); simpl; auto.
        repeat constructor; discriminate.
      * destruct verbose; simpl.
        -- destruct (empty st) eqn:Ee; simpl.
           ++ subst shown. rewrite app_nil_r in Hev.
              destruct (negb (String.eqb (errbuf st) "")); simpl;
                unfold banner_first; simpl; rewrite Hev;
                exists q; eexists;
                (split; [rewrite <- !app_assoc; reflexivity|]);
                (split; [exact Hq|]); eexists; (split; [reflexivity|]);
                repeat constructor; discriminate.
           ++ apply (Step [WriteTo Stderr b; FlushTo Stderr]); simpl; auto.
        -- apply (Step []); simpl; auto.
           now rewrite app_nil_r.
Qed.

End HeaderOutput.

Section HeaderStreams.
Import Py Portable Forall Streams.
Variables (project : descriptor) (mirror verbose : bool) (cnt : nat).
Variable p : child.

Local Abbreviation body := (header_body project mirror verbose cnt).

(** The buffers written to one destination, in order. *)
Fixpoint writes_to (d : std) (evs : list event) : list string :=
  match evs with
  | [] => []
  | WriteTo d' buf :: rest =>
      if decide (d' = d) then buf :: writes_to d rest else writes_to d rest
  | _ :: rest => writes_to d rest
  end.

Lemma writes_to_app (d : std) (a b : list event) :
  writes_to d (a ++ b) = writes_to d a ++ writes_to d b.
Proof.
  induction a as [|e a IH]; simpl; [reflexivity|].
  destruct e; auto. case_decide; simpl; now rewrite IH.
Qed.

Lemma writes_to_banner (d : std) :
  writes_to d (banner project mirror cnt) = [].
Proof. unfold banner. now destruct (negb (Nat.eqb cnt 0)). Qed.


(** Stdout: what has been written followed by what the pipe has yet to
    deliver is what the child wrote. *)
Definition out_inv (st : hstate) : Prop :=
  writes_to Stdout (events st) ++ pend_out st = out_chunks p
  /\ chunked (pend_out st)
  /\ (~ In Stdout (s_in st) -> pend_out st = []).

Lemma out_inv_body (st : hstate) (s : std) :
  wait_set (s_in st) -> In s (s_in st) -> out_inv st -> out_inv (body st s).
Proof.
  intros Hset Hs (Hw & Hc & Hcl).
  assert (Hkeep : ~ In Stdout (remove Stderr (s_in st)) -> pend_out st = []).
  { intros H. apply Hcl. intros Hin. apply H.
    apply remove_keeps; [discriminate | exact Hin]. }
  unfold out_inv, header_body, read_from.
  destruct s.
  - destruct (pend_out st) as [|b bs] eqn:E; simpl.
    + rewrite writes_to_app. simpl. rewrite !app_nil_r in *. auto using wait_set_remove.
    + inversion Hc as [|? ? Hb Hbs]; subst.
      rewrite (is_eof_chunk b Hb). simpl. rewrite andb_false_r.
      assert (Hin : forall l, ~ In Stdout (s_in st) -> l = bs)
        by (intros l Hn; contradiction).
      destruct (empty st); simpl;
        [destruct (negb (String.eqb (errbuf st) "")); simpl|];
        rewrite ?writes_to_app, ?writes_to_banner; simpl;
        rewrite ?app_nil_r, <- ?app_assoc; simpl;
        (split; [exact Hw|]); (split; [exact Hbs|]);
        intros Hn; contradiction.
  - destruct (pend_err st) as [|b bs] eqn:E; simpl.
    + rewrite writes_to_app. simpl. rewrite app_nil_r. auto.
    + destruct (is_eof b); simpl.
      * rewrite writes_to_app. simpl. rewrite app_nil_r. auto.
      * destruct verbose; simpl; [|auto].
        destruct (empty st); simpl;
          [destruct (negb (String.eqb (errbuf st) "")); simpl|];
          rewrite ?writes_to_app, ?writes_to_banner; simpl;
          rewrite ?app_nil_r; auto.
Qed.



End HeaderStreams.

Section DoWorkFacts.
Import Py Portable Forall Streams.

Lemma header_start_set (p : child) : wait_set (s_in (header_start p)).
Proof. left. reflexivity. Qed.

Lemma header_start_bound (p : child) :
  header_measure (header_start p) <= header_bound p.
Proof. unfold header_measure, header_bound. simpl. lia. Qed.



(** In header mode, whatever the child writes, in whatever order the
    pipes become ready, and even when a signal ends the loop: the banner
    block is written at most once, and before it [DoWork] writes nothing
    but the closing of pipes; everything that is shown comes after it. *)
Theorem header_banner_at_most_once (w : world) (project : descriptor)
    (mirror : bool) (opt : opts) (cmd : list string) (shell : bool)
    (cnt : nat) (config : bool) (p : child) :
  project_header opt = true ->
  path_exists w (work_cwd project mirror) = true ->
  popen w cmd (work_cwd project mirror) shell
        (work_env (os_environ w) project mirror cnt) = Ok p ->
  exists r q rest,
    DoWork w project mirror opt cmd shell cnt config = Some r
    /\ List.Forall quiet q
    /\ List.Forall not_banner rest
    /\ (written r = q \/ written r = q ++ banner project mirror cnt ++ rest).
Proof.
  intros Hh Hex Hp. unfold DoWork. rewrite Hex, Hp, Hh. simpl.
  destruct (header_loop_ends project mirror (verbose opt) cnt
              (banner_first project mirror cnt)
              (fun st s _ _ => banner_first_body project mirror (verbose opt)
                                 cnt st s)
              (sel w) (header_bound p) 0 (header_start p)
              (header_start_set p))
    as (st & r & -> & (q & shown & Hev & Hq & Hshown) & _).
  { exists [StdinClose], []. simpl. split; [reflexivity|].
    split; [|reflexivity]. constructor; [now left | constructor]. }
  { apply header_start_bound. }
  assert (G : exists rest,
             List.Forall not_banner rest
             /\ (events st = q
                 \/ events st = q ++ banner project mirror cnt ++ rest)).
  { rewrite Hev. destruct (empty st).
    - subst shown. exists []. split; [constructor|]. left. apply app_nil_r.
    - destruct Hshown as (rest & -> & Hrest). exists rest. auto. }
  destruct G as (rest & Hrest & Hcase).
  destruct r as [i|e]; eexists; exists q, rest; simpl; auto.
Qed.

(** In header mode, when no signal interrupts the worker, everything that
    the child writes on stdout is written to stdout, chunk by chunk and in
    order, with [verbose] on or off, and [DoWork] returns the child's exit
    status. *)
Theorem header_stdout_in_order (w : world) (project : descriptor)
    (mirror : bool) (opt : opts) (cmd : list string) (shell : bool)
    (cnt : nat) (config : bool) (p : child) :
  project_header opt = true ->
  path_exists w (work_cwd project mirror) = true ->
  popen w cmd (work_cwd project mirror) shell
        (work_env (os_environ w) project mirror cnt) = Ok p ->
  (forall j, sel w j <> Sigint) ->
  chunked (out_chunks p) ->
  exists r,
    DoWork w project mirror opt cmd shell cnt config = Some r
    /\ writes_to Stdout (written r) = out_chunks p
    /\ ret r = Ok (PInt (status p)).
Proof.
  intros Hh Hex Hp Hsel Hc. unfold DoWork. rewrite Hex, Hp, Hh. simpl.
  destruct (header_loop_ends project mirror (verbose opt) cnt
              (out_inv p)
              (out_inv_body project mirror (verbose opt) cnt p)
              (sel w) (header_bound p) 0 (header_start p)
              (header_start_set p))
    as (st & r & -> & (Hw & _ & Hcl) & Hr).
  { split; [reflexivity|]. split; [exact Hc|].
    intros Hn. exfalso. apply Hn. now left. }
  { apply header_start_bound. }
  destruct r as [i|e].
  - eexists. split; [reflexivity|]. simpl. split.
    + rewrite Hr in Hcl. rewrite Hcl in Hw by (simpl; tauto).
      now rewrite app_nil_r in Hw.
    + specialize (Hsel i). unfold wait. destruct (sel w i); congruence.
  - destruct Hr as [_ [j Hj]]. exfalso. exact (Hsel j Hj).
Qed.


End DoWorkFacts.

Section DoWorkSamples.
Import Py Portable Forall Streams Sample.

(** A child that warns, writes a line, and warns again. *)
Definition chatty : child :=
  {| out_chunks := ["M file"]; err_chunks := ["warn 1"; "warn 2"];
     status := 0 |}.

(** Stderr is ready first, then stdout, then both. *)
Definition stderr_first (i : nat) : ready :=
  match i with
  | 0 => PickLast
  | 1 => PickFirst
  | _ => PickAll
  end.

Lemma header_banner_at_most_once_witness :
  exists r q rest,
    DoWork (worker true stderr_first chatty) build false (headers false)
           ["status"] false 3 false = Some r
    /\ List.Forall quiet q
    /\ List.Forall not_banner rest
    /\ (written r = q \/ written r = q ++ banner build false 3 ++ rest).
Proof.
  apply (header_banner_at_most_once (worker true stderr_first chatty) build
           false (headers false) ["status"] false 3 false chatty);
    reflexivity.
Defined.

Lemma header_stdout_in_order_witness :
  exists r,
    DoWork (worker true stderr_first chatty) build false (headers false)
           ["status"] false 3 false = Some r
    /\ writes_to Stdout (written r) = ["M file"]
    /\ ret r = Ok (PInt 0).
Proof.
  apply (header_stdout_in_order (worker true stderr_first chatty) build
           false (headers false) ["status"] false 3 false chatty);
    try reflexivity.
  - intros [|[|j]]; discriminate.
  - repeat constructor; discriminate.
Defined.


(** What that run writes: the second warning comes after the banner and is
    not written. *)
Example DoWork_chatty_loses_late_stderr :
  DoWork (worker true stderr_first chatty) build false (headers false)
         ["status"] false 3 false
  = Some {| written :=
              [StdinClose;
               Nl; Banner "project build/"; Nl; OutFlush;
               WriteTo Stderr "warn 1"; FlushTo Stderr;
               WriteTo Stdout "M file"; FlushTo Stdout;
               Close Stdout; Close Stderr];
            ret := Ok (PInt 0) |}.
Proof. vm_compute. reflexivity. Qed.

Lemma ProjectArgs_all_good_witness :
  ProjectArgs str_nat (fun _ : nat => Ok build) false (plain false)
    ["ls-files"] false false [7; 8]
  = (imap (item_at false (plain false) ["ls-files"] false false)
          [build; build], []).
Proof.
  apply (ProjectArgs_all_good str_nat (fun _ : nat => Ok build) false
           (plain false) ["ls-files"] false false [7; 8] [build; build]).
  repeat constructor.
Defined.

End DoWorkSamples.

(** ** The echo of [GitCommand.Wait] *)

Section WaitEcho.
Import Py Portable GitCommand Streams.
Variable tee : std -> bool.
Variable c : child.

(** The terminal traffic of a list of echoed chunks: each is written to
    its stream and flushed at once. *)
Definition echo_of (ws : list (std * string)) : list tty_event :=
  flat_map (fun '(s, buf) => [Write s buf; Flush s]) ws.

(** The chunks of one stream among echoed chunks, in order. *)
Definition chunks_of (s : std) (ws : list (std * string)) : list string :=
  map snd (filter (fun w => bool_decide (fst w = s)) ws).

Lemma chunks_of_app (s : std) (a b : list (std * string)) :
  chunks_of s (a ++ b) = chunks_of s a ++ chunks_of s b.
Proof. unfold chunks_of. now rewrite filter_app, map_app. Qed.

(** The invariant: the terminal received, for each stream, the chunks read
    so far when the stream is echoed and nothing otherwise. *)
Definition echo_inv (st : wait_state) : Prop :=
  exists ws,
    tty st = echo_of ws
    /\ chunks_of Stdout ws ++ (if tee Stdout then pend_out st else [])
       = (if tee Stdout then out_chunks c else [])
    /\ chunks_of Stderr ws ++ (if tee Stderr then pend_err st else [])
       = (if tee Stderr then err_chunks c else []).

Lemma echo_inv_body (st : wait_state) (s : std) :
  wait_inv c st -> echo_inv st -> echo_inv (wait_body tee st s).
Proof.
  intros [_ Hoc Hec _ _ _ _] (ws & Htty & Ho & He).
  unfold echo_inv, wait_body, read_from.
  destruct s.
  - destruct (pend_out st) as [|b bs] eqn:E; simpl.
    + exists ws. auto.
    + inversion Hoc as [|? ? Hb Hbs]; subst.
      rewrite (is_eof_chunk b Hb). simpl.
      destruct (tee Stdout) eqn:Et.
      * exists (ws ++ [(Stdout, b)]). unfold echo_of.
        rewrite flat_map_app, !chunks_of_app. simpl.
        rewrite Htty, app_nil_r, <- app_assoc. simpl.
        split; [reflexivity|]. split; [exact Ho | exact He].
      * exists ws. auto.
  - destruct (pend_err st) as [|b bs] eqn:E; simpl.
    + exists ws. auto.
    + inversion Hec as [|? ? Hb Hbs]; subst.
      rewrite (is_eof_chunk b Hb). simpl.
      destruct (tee Stderr) eqn:Et.
      * exists (ws ++ [(Stderr, b)]). unfold echo_of.
        rewrite flat_map_app, !chunks_of_app. simpl.
        rewrite Htty, app_nil_r, <- app_assoc. simpl.
        split; [reflexivity|]. split; [exact Ho | exact He].
      * exists ws. auto.
Qed.

Lemma wait_iteration_echo (st : wait_state) (r : ready) (in_ready : list std) :
  wait_inv c st ->
  echo_inv st ->
  s_in st <> [] ->
  select r (s_in st) = Ok in_ready ->
  wait_inv c (foldl (wait_body tee) st in_ready)
  /\ echo_inv (foldl (wait_body tee) st in_ready)
  /\ wait_measure (foldl (wait_body tee) st in_ready) < wait_measure st.
Proof.
  intros Hinv He Hne Hsel.
  destruct (select_answers r _ _ (inv_set _ _ Hinv) Hne Hsel)
    as [(s & -> & Hs) | [-> Hl]]; simpl.
  - destruct (wait_body_inv tee c st s Hinv Hs) as (H1 & H2 & _).
    auto using echo_inv_body.
  - assert (Ho : In Stdout (s_in st)) by (rewrite Hl; now left).
    assert (Her : In Stderr (s_in st)) by (rewrite Hl; right; now left).
    destruct (wait_body_inv tee c st Stdout Hinv Ho) as (H1 & H2 & H3).
    assert (He' : In Stderr (s_in (wait_body tee st Stdout)))
      by (apply H3; [discriminate | exact Her]).
    destruct (wait_body_inv tee c _ Stderr H1 He') as (H4 & H5 & _).
    split; [exact H4|]. split; [|lia].
    auto using echo_inv_body.
Qed.

Lemma wait_loop_echo (sel : nat -> ready) (fuel i : nat) (st : wait_state) :
  (forall j, sel j <> Sigint) ->
  wait_inv c st ->
  echo_inv st ->
  wait_measure st <= fuel ->
  exists st',
    wait_loop tee sel fuel i st = Some (Ok st')
    /\ wait_inv c st' /\ echo_inv st' /\ s_in st' = [].
Proof.
  intros Hsel. revert i st.
  induction fuel as [|fuel IH]; intros i st Hinv He Hm.
  - destruct (s_in st) eqn:E.
    + exists st. simpl. rewrite E. auto.
    + unfold wait_measure in Hm. rewrite E in Hm. simpl in Hm. lia.
  - simpl. destruct (s_in st) as [|x l] eqn:E.
    + exists st. auto.
    + destruct (select (sel i) (x :: l)) as [in_ready|e] eqn:Es.
      * rewrite <- E in Es.
        destruct (wait_iteration_echo st (sel i) in_ready Hinv He)
          as (H1 & H2 & H3); [rewrite E; discriminate | exact Es |].
        apply IH; [exact H1 | exact H2 | lia].
      * exfalso. specialize (Hsel i).
        destruct (sel i); simpl in Es; try discriminate. contradiction.
Qed.

End WaitEcho.

Section WaitEchoResult.
Import Py Portable GitCommand Streams.

(** What [Wait] echoes: for a stream whose [tee] is on, every chunk of the
    stream, in order, each written and flushed before anything else is
    written; for a stream whose [tee] is off, nothing. Chunks of the two
    streams may interleave. *)
Theorem Wait_echoes_per_stream (tee : std -> bool) (sel : nat -> ready)
    (c : child) :
  chunked (out_chunks c) ->
  chunked (err_chunks c) ->
  (forall j, sel j <> Sigint) ->
  exists r ws,
    Wait tee sel c = Some (Ok r)
    /\ w_tty r = echo_of ws
    /\ chunks_of Stdout ws = (if tee Stdout then out_chunks c else [])
    /\ chunks_of Stderr ws = (if tee Stderr then err_chunks c else []).
Proof.
  intros Ho He Hsel. unfold Wait.
  destruct (wait_loop_echo tee c sel (wait_bound c) 0 (wait_start c) Hsel
              (wait_start_inv c Ho He))
    as (st & -> & Hinv & (ws & Htty & Hwo & Hwe) & Hnil).
  { exists []. simpl. repeat split; now destruct (tee _). }
  { unfold wait_measure, wait_bound. simpl. lia. }
  eexists. exists ws. split; [reflexivity|]. simpl.
  destruct Hinv as [_ _ _ _ _ Hocl Hecl].
  rewrite Hnil in Hocl, Hecl.
  rewrite Hocl in Hwo by (simpl; tauto).
  rewrite Hecl in Hwe by (simpl; tauto).
  split; [exact Htty|]. split.
  - destruct (tee Stdout); now rewrite app_nil_r in Hwo.
  - destruct (tee Stderr); now rewrite app_nil_r in Hwe.
Qed.

(** Only stderr goes to the terminal. *)
Definition tee_stderr (s : std) : bool :=
  match s with
  | Stdout => false
  | Stderr => true
  end.

Lemma Wait_echoes_per_stream_witness :
  exists r ws,
    Wait tee_stderr (fun _ => PickAll) talker = Some (Ok r)
    /\ w_tty r = echo_of ws
    /\ chunks_of Stdout ws = []
    /\ chunks_of Stderr ws = ["warn"].
Proof.
  apply (Wait_echoes_per_stream tee_stderr (fun _ => PickAll) talker).
  - repeat constructor; discriminate.
  - repeat constructor; discriminate.
  - discriminate.
Defined.

End WaitEchoResult.

(** ** The calls through [git.<name>(...)] and the spawn *)

Section GitCallFacts.
Import Py Portable GitCommand GitCall.





(** A call such as [git.check_ref_format('heads/topic')]. *)
Example git_check_ref_format :
  command (fst (init tmpfs nested (getattr_args "check_ref_format"
                                     ["heads/topic"]) fresh))
  = ["git"; "check-ref-format"; "heads/topic"].
Proof. vm_compute. reflexivity. Qed.



End GitCallFacts.

(** ** The fan-out as a whole *)

Section FanOutFacts.
Import Py Portable Forall.



Lemma collect_interrupts_alike (abort : bool) (pre : list (result pyval))
    (rc : pyval) (rest rest' : list (result pyval)) :
  (collect abort rc (pre ++ Raise KeyboardInterrupt :: rest)
   = collect abort rc (pre ++ Raise WorkerKeyboardInterrupt :: rest'))
  \/ exists rc',
       collect abort rc (pre ++ Raise KeyboardInterrupt :: rest)
       = (rc', Some KeyboardInterrupt)
       /\ collect abort rc (pre ++ Raise WorkerKeyboardInterrupt :: rest')
          = (rc', Some WorkerKeyboardInterrupt).
Proof.
  revert rc. induction pre as [|[r|e] pre IH]; intros rc; simpl.
  - right. eauto.
  - destruct (ne0 r && abort); [now left | apply IH].
  - now left.
Qed.

(** An interruption of the orchestrator itself and an interruption
    reported by a worker end [Execute] in the same way, whatever was
    collected before and whatever would have followed: same aggregate, same
    exit, pool terminated and joined, same message. *)
Theorem Execute_interrupts_alike (abort : bool) (pre : list (result pyval))
    (rest rest' : list (result pyval)) :
  Execute_results abort (pre ++ Raise KeyboardInterrupt :: rest)
  = Execute_results abort (pre ++ Raise WorkerKeyboardInterrupt :: rest').
Proof.
  unfold Execute_results.
  destruct (collect_interrupts_alike abort pre (PInt 0) rest rest')
    as [-> | (rc' & -> & ->)]; reflexivity.
Qed.

End FanOutFacts.
